(** * Syllogism quiz generators: a shallow embedding

    The development follows the three generator sources of the repository:
    - [src/components/QuizGenerator.ts]  (module [QuizGenerator]),
    - [src/pages/api/quiz.ts]            (module [ApiQuiz]),
    - [src/pages/api/multi-quiz.ts]      (module [MultiQuiz]).

    The JSON files they import ([quiz-templates.json], [de.json], [en.json])
    are data; they are taken as a record of imports, and a small sample
    instance is given for evaluation. *)

From Stdlib Require Import String Ascii List Bool Arith Lia Permutation.
Import ListNotations.
Local Open Scope string_scope.
Local Open Scope list_scope.

Set Implicit Arguments.

(** ** Data model *)

(** [QuantifierType = "all" | "none" | "some" | "some_none" | "unknown"] *)
Inductive QuantifierType := q_all | q_none | q_some | q_some_none | q_unknown.

(** [Exclude<QuantifierType, "unknown">], the type of a premise. *)
Inductive StatementType := s_all | s_none | s_some | s_some_none.

(** ["X" | "Y" | "Z"] *)
Inductive Var := X | Y | Z.

Record Statement := mkStatement
  { stype : StatementType; ssubject : Var; sobject : Var }.

Record Conclusion := mkConclusion
  { ctype : QuantifierType; csubject : Var; cobject : Var }.

(** [statements] is a pair in the source ([[Statement, Statement]]). *)
Record QuizItem := mkQuizItem
  { statement1 : Statement; statement2 : Statement; correct : list Conclusion }.

Definition statements (item : QuizItem) : list Statement :=
  [statement1 item; statement2 item].

Definition allTypes : list QuantifierType :=
  [q_all; q_none; q_some; q_some_none; q_unknown].

Definition widen (t : StatementType) : QuantifierType :=
  match t with
  | s_all => q_all | s_none => q_none | s_some => q_some
  | s_some_none => q_some_none
  end.

Definition QuantifierType_eqb (a b : QuantifierType) : bool :=
  match a, b with
  | q_all, q_all | q_none, q_none | q_some, q_some
  | q_some_none, q_some_none | q_unknown, q_unknown => true
  | _, _ => false
  end.

Definition Var_eqb (a b : Var) : bool :=
  match a, b with
  | X, X | Y, Y | Z, Z => true
  | _, _ => false
  end.

Definition Conclusion_eqb (a b : Conclusion) : bool :=
  QuantifierType_eqb (ctype a) (ctype b)
  && Var_eqb (csubject a) (csubject b)
  && Var_eqb (cobject a) (cobject b).

(** The string a quantifier or a variable is in the JSON data. *)
Definition typeName (t : QuantifierType) : string :=
  match t with
  | q_all => "all" | q_none => "none" | q_some => "some"
  | q_some_none => "some_none" | q_unknown => "unknown"
  end.

Definition varName (v : Var) : string :=
  match v with X => "X" | Y => "Y" | Z => "Z" end.

(** [`${type}:${subject}->${object}`] *)
Definition keyOf (t : QuantifierType) (s o : Var) : string :=
  typeName t ++ ":" ++ varName s ++ "->" ++ varName o.

Definition conclusionKey (c : Conclusion) : string :=
  keyOf (ctype c) (csubject c) (cobject c).

Definition statementKey (s : Statement) : string :=
  keyOf (widen (stype s)) (ssubject s) (sobject s).

(** ** A JavaScript [Map<string, V>]: insertion-ordered, [set] on a present
    key replaces the value where the key stands. *)
Module JsMap.
Definition t (V : Type) := list (string * V).

Fixpoint set {V} (k : string) (v : V) (m : t V) : t V :=
  match m with
  | [] => [(k, v)]
  | (k', v') :: m' =>
      if String.eqb k' k then (k, v) :: m' else (k', v') :: set k v m'
  end.

Definition values {V} (m : t V) : list V := map snd m.
End JsMap.

(** ** JavaScript strings: [String.prototype.replace] with a string pattern

    Only the first occurrence of the pattern is replaced, and the replacement
    text is read as a replacement template ([$$], [$&], [$`], [$']; with a
    string pattern there are no captures, so [$1] and the like stay as they
    are).  The patterns searched here, [{sub}] and [{obj}], are ASCII, so
    searching bytes and searching UTF-16 code units find the same place. *)

Fixpoint skip (n : nat) (s : string) : string :=
  match n, s with
  | S n', String _ s' => skip n' s'
  | _, _ => s
  end.

(** The text before the first occurrence of [pat] in [s], and the text
    after it. *)
Fixpoint splitAtFirst (pat s : string) : option (string * string) :=
  if String.prefix pat s then Some (EmptyString, skip (String.length pat) s)
  else match s with
       | EmptyString => None
       | String c s' =>
           match splitAtFirst pat s' with
           | Some (before, after) => Some (String c before, after)
           | None => None
           end
       end.

Fixpoint getSubstitution (matched before after template : string) : string :=
  match template with
  | EmptyString => EmptyString
  | String c tl =>
      if Ascii.eqb c "$"%char then
        match tl with
        | String d tl' =>
            if Ascii.eqb d "$"%char then
              String "$"%char (getSubstitution matched before after tl')
            else if Ascii.eqb d "&"%char then
              (matched ++ getSubstitution matched before after tl')%string
            else if Ascii.eqb d "`"%char then
              (before ++ getSubstitution matched before after tl')%string
            else if Ascii.eqb d "'"%char then
              (after ++ getSubstitution matched before after tl')%string
            else String c (getSubstitution matched before after tl)
        | EmptyString => String c EmptyString
        end
      else String c (getSubstitution matched before after tl)
  end.

(** [s.replace(pat, replacement)] *)
Definition replace (pat replacement s : string) : string :=
  match splitAtFirst pat s with
  | None => s
  | Some (before, after) =>
      (before ++ getSubstitution pat before after replacement ++ after)%string
  end.

(** ** The random source

    [Math.random()] is read from an infinite sequence of draws; the only use
    the sources make of it is [Math.floor(Math.random() * n)], an index below
    [n], which is the next draw reduced below [n] (and [0] when [n] is [0],
    as [Math.floor(r * 0)] is). *)
Record Rng := mkRng { draws : nat -> nat; cursor : nat }.

Definition advance (k : nat) (g : Rng) : Rng :=
  mkRng (draws g) (cursor g + k).

Definition randomBelow (n : nat) (g : Rng) : nat * Rng :=
  (match n with
   | 0 => 0
   | S _ => draws g (cursor g) mod n
   end, mkRng (draws g) (S (cursor g))).

(** [arr[Math.floor(Math.random() * arr.length)]]; [None] is [undefined]. *)
Definition getRandomElement {A} (arr : list A) (g : Rng) : option A * Rng :=
  let (i, g') := randomBelow (length arr) g in (nth_error arr i, g').

(** ** Arrays *)

Fixpoint update {A} (i : nat) (v : A) (l : list A) : list A :=
  match l, i with
  | [], _ => []
  | _ :: l', 0 => v :: l'
  | a :: l', S i' => a :: update i' v l'
  end.

(** [[a[i], a[j]] = [a[j], a[i]]], for [i] and [j] inside the array (the
    shuffles never leave it). *)
Definition swap {A} (i j : nat) (a : list A) : list A :=
  match nth_error a i, nth_error a j with
  | Some ai, Some aj => update j ai (update i aj a)
  | _, _ => a
  end.

(** [for (let i = a.length - 1; i > 0; i--) { j = floor(random * (i + 1));
    swap }], entered at [i]. *)
Fixpoint shuffleLoop {A} (i : nat) (a : list A) (g : Rng) : list A * Rng :=
  match i with
  | 0 => (a, g)
  | S i' =>
      let (j, g') := randomBelow (i + 1) g in
      shuffleLoop i' (swap i j a) g'
  end.

(** What a call [shuffle(array)] leaves behind: the array that was passed,
    as it is after the call, and the array that is returned. *)
Record Shuffled (A : Type) := mkShuffled
  { passed : list A; returned : list A; rngAfter : Rng }.

(** [arr.findIndex(p)]; [None] is [-1]. *)
Fixpoint findIndex {A} (p : A -> bool) (l : list A) : option nat :=
  match l with
  | [] => None
  | a :: l' =>
      if p a then Some 0
      else match findIndex p l' with Some i => Some (S i) | None => None end
  end.

(** [arr.filter((a, i) => p(a, i))] *)
Definition filteri {A} (p : A -> nat -> bool) (l : list A) : list A :=
  map fst (filter (fun ai => p (fst ai) (snd ai))
                  (combine l (seq 0 (length l)))).

(** ** What the generators import and what they return *)

Inductive Lang := de | en.

(** [quizData.data] of quiz-templates.json, and [templates] and [terms] of
    de.json and en.json. *)
Record Imports := mkImports
  { quizData : list QuizItem;
    templatesOf : Lang -> QuantifierType -> string;
    termsOf : Lang -> list string }.

Record Answer := mkAnswer { sentence : string; isCorrect : bool }.

(** The term of a variable: [terms[0]], [terms[1]], [terms[2]]; a missing
    entry is [undefined], which [replace] writes as the text "undefined". *)
Definition termMapOf (terms : list string) (v : Var) : string :=
  match v with
  | X => nth 0 terms "undefined"
  | Y => nth 1 terms "undefined"
  | Z => nth 2 terms "undefined"
  end.

(** [pattern.replace("{sub}", sub).replace("{obj}", obj)] *)
Definition fill (pattern sub obj : string) : string :=
  replace "{obj}" obj (replace "{sub}" sub pattern).

Record Quiz := mkQuiz { baseSentences : list string; answers : list Answer }.

(** An answer of the single-answer generators before its [type] is
    dropped. *)
Record TypedAnswer := mkTypedAnswer
  { atype : QuantifierType; asentence : string; aisCorrect : bool }.

Definition untyped (a : TypedAnswer) : Answer :=
  mkAnswer (asentence a) (aisCorrect a).

(** ** The single-answer generator

    [generateQuiz] of src/components/QuizGenerator.ts and of
    src/pages/api/quiz.ts are the same function, statement for statement;
    the two files differ in the [shuffle] they define, which is the
    parameter here. *)
Section SingleAnswer.
Variable shuffle : forall A : Type, list A -> Rng -> Shuffled A.
Variable J : Imports.

(** The quiz, with the conclusion drawn from [item.correct] and the
    [terms] array as it is when the term map is read; [None] is a
    [TypeError] (a property of [undefined] is read). *)
Definition generateQuizFrom (lang : Lang) (g : Rng)
  : option (Quiz * Conclusion * list string * Rng) :=
  let (item, g) := getRandomElement (quizData J) g in
  let t := templatesOf J lang in
  let terms := termsOf J lang in
  let sh := shuffle terms g in
  let terms := passed sh in
  let g := rngAfter sh in
  let mapVarsToTerms := termMapOf terms in
  match item with
  | None => None
  | Some item =>
      let baseSentences :=
        map (fun s => fill (t (widen (stype s)))
                           (mapVarsToTerms (ssubject s))
                           (mapVarsToTerms (sobject s)))
            (statements item) in
      let (correct, g) := getRandomElement (correct item) g in
      match correct with
      | None => None
      | Some correct =>
          let subj := mapVarsToTerms (csubject correct) in
          let obj := mapVarsToTerms (cobject correct) in
          let answers :=
            map (fun type =>
                   mkTypedAnswer type (fill (t type) subj obj)
                     (QuantifierType_eqb type (ctype correct)))
                allTypes in
          let unknownAnswer :=
            find (fun a => QuantifierType_eqb (atype a) q_unknown)
                 answers in
          let sh :=
            shuffle
              (filter (fun a =>
                         negb (QuantifierType_eqb (atype a) q_unknown))
                      answers) g in
          let otherAnswers := returned sh in
          let g := rngAfter sh in
          let finalAnswers :=
            match unknownAnswer with
            | Some u => otherAnswers ++ [u]
            | None => otherAnswers
            end in
          Some (mkQuiz baseSentences (map untyped finalAnswers),
                correct, terms, g)
      end
  end.

Definition generateQuizWith (lang : Lang) (g : Rng) : option Quiz :=
  match generateQuizFrom lang g with
  | Some (quiz, _, _, _) => Some quiz
  | None => None
  end.
End SingleAnswer.

(** ** src/components/QuizGenerator.ts *)
Module QuizGenerator.
(** Shuffles the array it is given, in place, and returns that array. *)
Definition shuffle (A : Type) (array : list A) (g : Rng) : Shuffled A :=
  let (array', g') := shuffleLoop (length array - 1) array g in
  mkShuffled array' array' g'.

Definition generateQuiz : Imports -> Lang -> Rng -> option Quiz :=
  generateQuizWith shuffle.
End QuizGenerator.

(** ** src/pages/api/quiz.ts *)
Module ApiQuiz.
(** Shuffles a copy of the array it is given and returns the copy. *)
Definition shuffle (A : Type) (array : list A) (g : Rng) : Shuffled A :=
  let shuffled := array in
  let (shuffled', g') := shuffleLoop (length shuffled - 1) shuffled g in
  mkShuffled array shuffled' g'.

Definition generateQuiz : Imports -> Lang -> Rng -> option Quiz :=
  generateQuizWith shuffle.
End ApiQuiz.

(** ** src/pages/api/multi-quiz.ts *)
Module MultiQuiz.
(** Shuffles a copy of the array it is given and returns the copy. *)
Definition shuffle (A : Type) (array : list A) (g : Rng) : Shuffled A :=
  let shuffled := array in
  let (shuffled', g') := shuffleLoop (length shuffled - 1) shuffled g in
  mkShuffled array shuffled' g'.

(** What one pass of the [for (const stmt of item.statements)] body
    pushes on [derived]. *)
Definition pushed (stmt : Statement) : list Conclusion :=
  let '(mkStatement type subject object) := stmt in
  (match type with
   | s_all => [mkConclusion q_some subject object;
               mkConclusion q_some object subject]
   | _ => []
   end)
  ++ (match type with
      | s_some => [mkConclusion q_some object subject]
      | _ => []
      end)
  ++ (match type with
      | s_none => [mkConclusion q_none object subject]
      | _ => []
      end).

Definition derivedOf (item : QuizItem) : list Conclusion :=
  fold_left (fun derived stmt => derived ++ pushed stmt)
            (statements item) (correct item).

Definition uniqueOf (derived : list Conclusion) : JsMap.t Conclusion :=
  fold_left (fun unique c => JsMap.set (conclusionKey c) c unique)
            derived [].

Definition expandCorrectAnswers (item : QuizItem) : list Conclusion :=
  JsMap.values (uniqueOf (derivedOf item)).

(** [expanded.length > 0 && !expanded.every((c) => c.type === "unknown")] *)
Definition isValid (item : QuizItem) : bool :=
  let expanded := expandCorrectAnswers item in
  (0 <? length expanded)%nat
  && negb (forallb (fun c => QuantifierType_eqb (ctype c) q_unknown)
                   expanded).

(** The [isCorrect] label of a candidate [c]. *)
Definition isCorrectLabel (correctAnswers : list Conclusion)
           (c : Conclusion) : bool :=
  existsb
    (fun correct =>
       QuantifierType_eqb (ctype correct) (ctype c)
       && ((Var_eqb (csubject correct) (csubject c)
            && Var_eqb (cobject correct) (cobject c))
           || (Var_eqb (csubject correct) (cobject c)
               && Var_eqb (cobject correct) (csubject c)
               && QuantifierType_eqb (ctype correct) q_some)))
    correctAnswers.

(** The [candidates] array built for one [type]. *)
Definition candidatesOf (baseKeys : list string) (type : QuantifierType)
  : list Conclusion :=
  flat_map
    (fun s =>
       flat_map
         (fun o =>
            if negb (Var_eqb s o) then
              if negb (existsb (String.eqb (keyOf type s o)) baseKeys)
              then [mkConclusion type s o]
              else []
            else [])
         [X; Y; Z])
    [X; Y; Z].

(** The outcome of a run that may throw and whose loop may go on. *)
Inductive Outcome (A : Type) :=
| Returned (a : A) (g : Rng)
| Thrown
| Running.
Arguments Thrown {A}.
Arguments Running {A}.

Record MultiQuiz := mkMultiQuiz
  { baseSentences : list string; answers : list (option Answer) }.

Section Generator.
Variable J : Imports.

Definition termsMap := termsOf J.
Definition templates := templatesOf J.

(** [do { item = getRandomElement(quizData.data) } while (!isValid(item))],
    run for at most [fuel] rounds; [isValid(undefined)] throws. *)
Fixpoint drawItem (fuel : nat) (g : Rng) : Outcome QuizItem :=
  match fuel with
  | 0 => Running
  | S fuel' =>
      let (item, g') := getRandomElement (quizData J) g in
      match item with
      | None => Thrown
      | Some item =>
          if negb (isValid item) then drawItem fuel' g'
          else Returned item g'
      end
  end.

Definition possibleAnswers (t : QuantifierType -> string)
           (mapVarsToTerms : Var -> string) (item : QuizItem)
  : list Answer :=
  let correctAnswers := expandCorrectAnswers item in
  let baseKeys := map statementKey (statements item) in
  flat_map
    (fun type =>
       if QuantifierType_eqb type q_unknown then []
       else
         map (fun c =>
                let sentence :=
                  fill (t type) (mapVarsToTerms (csubject c))
                       (mapVarsToTerms (cobject c)) in
                let isCorrect := isCorrectLabel correctAnswers c in
                mkAnswer sentence isCorrect)
             (candidatesOf baseKeys type))
    allTypes.

(** From [const answers = shuffle(possibleAnswers).filter(...)] to the
    end: the answers delivered, and whether the repair branch ran.
    [None] in the list is [undefined] ([correct[0]] of an empty array). *)
Definition selectAnswers (possible : list Answer) (g : Rng)
  : list (option Answer) * bool * Rng :=
  let sh := shuffle possible g in
  let g := rngAfter sh in
  let answers :=
    filteri (fun a i =>
               match findIndex
                       (fun b => String.eqb (sentence b) (sentence a))
                       (returned sh) with
               | Some k => Nat.eqb k i
               | None => false
               end)
            (returned sh) in
  let finalAnswers := firstn 6 answers in
  if negb (existsb isCorrect finalAnswers) then
    let sh := shuffle (filter isCorrect answers) g in
    let correct := returned sh in
    let g := rngAfter sh in
    let finalAnswers := map Some (removelast finalAnswers) in
    let finalAnswers := finalAnswers ++ [nth_error correct 0] in
    let sh := shuffle finalAnswers g in
    let finalAnswers := passed sh in
    let g := rngAfter sh in
    (finalAnswers, true, g)
  else (map Some finalAnswers, false, g).

(** The quiz, with the template it is built from and whether the repair
    branch ran. *)
Definition generateMultiQuizFrom (fuel : nat) (lang : Lang) (g : Rng)
  : Outcome (MultiQuiz * QuizItem * bool) :=
  let t := templates lang in
  let sh := shuffle (termsMap lang) g in
  let terms := returned sh in
  let g := rngAfter sh in
  let mapVarsToTerms := termMapOf terms in
  match drawItem fuel g with
  | Thrown => Thrown
  | Running => Running
  | Returned item g =>
      let baseSentences :=
        map (fun s => fill (t (widen (stype s)))
                           (mapVarsToTerms (ssubject s))
                           (mapVarsToTerms (sobject s)))
            (statements item) in
      let '(finalAnswers, repaired, g) :=
        selectAnswers (possibleAnswers t mapVarsToTerms item) g in
      Returned (mkMultiQuiz baseSentences finalAnswers, item, repaired) g
  end.

Definition generateMultiQuiz (fuel : nat) (lang : Lang) (g : Rng)
  : Outcome MultiQuiz :=
  match generateMultiQuizFrom fuel lang g with
  | Returned (quiz, _, _) g' => Returned quiz g'
  | Thrown => Thrown
  | Running => Running
  end.
End Generator.
End MultiQuiz.

(** ** Templates named in the specification *)
Definition barbara : QuizItem :=
  mkQuizItem (mkStatement s_all X Y) (mkStatement s_all Y Z)
             [mkConclusion q_all X Z].

Definition ferio : QuizItem :=
  mkQuizItem (mkStatement s_some X Y) (mkStatement s_none Y Z)
             [mkConclusion q_some_none X Z].

Definition converging : QuizItem :=
  mkQuizItem (mkStatement s_all Y X) (mkStatement s_all Z X)
             [mkConclusion q_unknown Y Z; mkConclusion q_unknown Z Y].

(** Two particular negative premises: nothing is pushed for them. *)
Definition particulars : QuizItem :=
  mkQuizItem (mkStatement s_some_none X Y) (mkStatement s_some_none Y Z)
             [mkConclusion q_unknown X Z; mkConclusion q_unknown Z X].

(** ** Sample imports, for evaluation *)
Module Sample.
Definition templates (lang : Lang) (type : QuantifierType) : string :=
  match lang, type with
  | en, q_all => "All {sub} are {obj}."
  | en, q_none => "No {sub} are {obj}."
  | en, q_some => "Some {sub} are {obj}."
  | en, q_some_none => "Some {sub} are not {obj}."
  | en, q_unknown => "Nothing follows about {sub} and {obj}."
  | de, q_all => "Alle {sub} sind {obj}."
  | de, q_none => "Keine {sub} sind {obj}."
  | de, q_some => "Einige {sub} sind {obj}."
  | de, q_some_none => "Einige {sub} sind keine {obj}."
  | de, q_unknown => "Keine Aussage zu {sub} und {obj}."
  end.

Definition terms (lang : Lang) : list string :=
  match lang with
  | en => ["cats"; "dogs"; "birds"; "fish"]
  | de => ["Katzen"; "Hunde"; "Vogel"; "Fische"]
  end.

Definition imports : Imports :=
  mkImports [barbara; ferio; converging; particulars] templates terms.

(** A source of draws that is [f] from the start. *)
Definition rngOf (f : nat -> nat) : Rng := mkRng f 0.
End Sample.

(** ** Properties of the imported data

    quiz-templates.json and the two language files are data of the
    repository; what the generators need of them is stated here, as checks
    that can be run on any instance. *)





(** The candidate statements of the multi-answer generator when no premise
    is excluded: every kind but [unknown] on every ordered pair of distinct
    variables. *)
Definition allCandidates : list Conclusion :=
  flat_map (fun type =>
              if QuantifierType_eqb type q_unknown then []
              else MultiQuiz.candidatesOf [] type)
           allTypes.

Definition sentenceOf (t : QuantifierType -> string) (tm : Var -> string)
           (c : Conclusion) : string :=
  fill (t (ctype c)) (tm (csubject c)) (tm (cobject c)).

Fixpoint noDupStrings (l : list string) : bool :=
  match l with
  | [] => true
  | s :: l' => negb (existsb (String.eqb s) l') && noDupStrings l'
  end.

(** Each element of a list with the others. *)
Fixpoint picks {A} (l : list A) : list (A * list A) :=
  match l with
  | [] => []
  | a :: l' => (a, l') :: map (fun br => (fst br, a :: snd br)) (picks l')
  end.

(** The ways to take three entries of a list at three different places. *)
Definition arrangements3 {A} (l : list A) : list (list A) :=
  flat_map
    (fun ar =>
       flat_map
         (fun br => map (fun cr => [fst ar; fst br; fst cr]) (picks (snd br)))
         (picks (snd ar)))
    (picks l).

(** Whatever three terms of the vocabulary stand for the variables, the
    sentences of different statements differ: a sentence can be read back
    to the statement it renders. *)
Definition sentencesDistinct (t : QuantifierType -> string)
           (vocabulary : list string) : bool :=
  forallb (fun terms =>
             noDupStrings (map (sentenceOf t (termMapOf terms)) allCandidates))
          (arrangements3 vocabulary).

(** The conclusions a premise licenses on its own, as the specification
    lists them. *)
Definition licensed (stmt : Statement) : list Conclusion :=
  match stmt with
  | mkStatement s_all a b => [mkConclusion q_some a b; mkConclusion q_some b a]
  | mkStatement s_some a b => [mkConclusion q_some b a]
  | mkStatement s_none a b => [mkConclusion q_none b a]
  | mkStatement s_some_none _ _ => []
  end.

(** The template whose canonical list is replaced by [conclusions]. *)
Definition withCorrect (item : QuizItem) (conclusions : list Conclusion)
  : QuizItem :=
  mkQuizItem (statement1 item) (statement2 item) conclusions.

(** The template the [k]-th round of the rejection loop draws, counting
    from the state [g] the loop is entered in. *)
Definition drawnAt (J : Imports) (g : Rng) (k : nat) : option QuizItem :=
  fst (getRandomElement (quizData J) (advance k g)).

(** ** Notions used in the statements and proofs *)

(** Every entry of the map stands under the key of its value. *)
Definition keyed (m : JsMap.t Conclusion) : Prop :=
  Forall (fun kv => fst kv = conclusionKey (snd kv)) m.

(** The candidate statements of a template: every kind but [unknown], every
    ordered pair of distinct variables, the premises left out. *)
Definition candidates (item : QuizItem) : list Conclusion :=
  flat_map (fun type =>
              if QuantifierType_eqb type q_unknown then []
              else MultiQuiz.candidatesOf
                     (map statementKey (statements item)) type)
           allTypes.

(** A premise, read as a conclusion. *)
Definition asConclusion (s : Statement) : Conclusion :=
  mkConclusion (widen (stype s)) (ssubject s) (sobject s).

(** The answer the multi-answer generator makes of a candidate. *)
Definition answerOf (t : QuantifierType -> string) (tm : Var -> string)
           (item : QuizItem) (c : Conclusion) : Answer :=
  mkAnswer (sentenceOf t tm c)
           (MultiQuiz.isCorrectLabel (MultiQuiz.expandCorrectAnswers item) c).

(** What the generators rely on in a [shuffle]: it returns a rearrangement
    of the array it is given. *)
Definition rearranges (shuffle : forall A : Type, list A -> Rng -> Shuffled A)
  : Prop :=
  forall (A : Type) (l : list A) (g : Rng),
    Permutation (returned (shuffle A l g)) l.

(** The four answers of the single-answer generators that are shuffled, and
    the one that is appended, for the conclusion [c] drawn from the
    canonical list. *)
Definition shuffledFour (t : QuantifierType -> string) (terms : list string)
           (c : Conclusion) : list Answer :=
  map (fun type =>
         mkAnswer (fill (t type) (termMapOf terms (csubject c))
                        (termMapOf terms (cobject c)))
                  (QuantifierType_eqb type (ctype c)))
      [q_all; q_none; q_some; q_some_none].

Definition unknownAnswerFor (t : QuantifierType -> string)
           (terms : list string) (c : Conclusion) : Answer :=
  mkAnswer (fill (t q_unknown) (termMapOf terms (csubject c))
                 (termMapOf terms (cobject c)))
           (QuantifierType_eqb q_unknown (ctype c)).

(** The shape of a single-answer quiz built for the conclusion [c]: five
    answers, one of them correct, the Unknown sentence for the pair of [c]
    in the last place. *)
Definition singleAnswerShape (t : QuantifierType -> string)
           (terms : list string) (c : Conclusion) (quiz : Quiz) : Prop :=
  length (answers quiz) = 5
  /\ length (filter isCorrect (answers quiz)) = 1
  /\ nth_error (answers quiz) 4 = Some (unknownAnswerFor t terms c).

(** The draws 0, 1, 2, ... *)
Definition counting : Rng := Sample.rngOf (fun n => n).

(** A library with the one template [particulars]. *)
Definition onlyParticulars : Imports :=
  mkImports [particulars] Sample.templates Sample.terms.

(** The draws 2, 2, 2, ... *)
Definition twos : Rng := Sample.rngOf (fun _ => 2).

(** The state in which [generateMultiQuiz] enters its rejection loop. *)
Definition loopEntry (J : Imports) (lang : Lang) (g : Rng) : Rng :=
  rngAfter (MultiQuiz.shuffle (termsOf J lang) g).

(** [arr.filter((a, i, arr) => arr.findIndex((b) => b.sentence ===
    a.sentence) === i)], the answers of [arr] whose sentence was not seen
    before. *)
Definition uniqueSentences (arr : list Answer) : list Answer :=
  filteri (fun a i =>
             match findIndex (fun b => String.eqb (sentence b) (sentence a))
                             arr with
             | Some k => Nat.eqb k i
             | None => false
             end)
          arr.

(** The conclusion a premise that is not of kind SomeNot licenses on the
    pair read backwards. *)
Definition backwards (p : Statement) : Conclusion :=
  mkConclusion (match stype p with s_none => q_none | _ => q_some end)
               (sobject p) (ssubject p).

(** ** The request handlers ([GET] of quiz.ts and of multi-quiz.ts)

    A response is its status, its headers and the value whose JSON text
    ([JSON.stringify]) is its body. *)
Inductive Body (Q : Type) :=
| ErrorBody (error : string)
| QuizBody (quiz : Q).

Record Response (Q : Type) := mkResponse
  { status : nat; headers : list (string * string); body : Body Q }.

Definition jsonHeaders : list (string * string) :=
  [("Content-Type", "application/json")].

Definition noCacheHeaders : list (string * string) :=
  [("Content-Type", "application/json");
   ("Cache-Control", "no-cache, no-store, must-revalidate");
   ("Pragma", "no-cache");
   ("Expires", "0")].

(** [url.searchParams.get("lang") || "en"]: the parameter when it is there
    and not empty ([None] is [null]). *)
Definition langOrDefault (param : option string) : string :=
  match param with
  | Some EmptyString => "en"
  | Some s => s
  | None => "en"
  end.

(** [["de", "en"].includes(lang)] *)
Definition supported (lang : string) : bool :=
  existsb (String.eqb lang) ["de"; "en"].

(** The language a supported code names. *)
Definition langOfCode (lang : string) : Lang :=
  if String.eqb lang "de" then de else en.

Module ApiQuizRoute.
(** [GET] of src/pages/api/quiz.ts. *)
Definition GET (J : Imports) (param : option string) (g : Rng)
  : Response Quiz :=
  let lang := langOrDefault param in
  if negb (supported lang) then
    mkResponse 400 jsonHeaders
               (ErrorBody Quiz "Invalid language. Supported: de, en")
  else
    match ApiQuiz.generateQuiz J (langOfCode lang) g with
    | Some quiz => mkResponse 200 noCacheHeaders (QuizBody quiz)
    | None =>
        mkResponse 500 jsonHeaders (ErrorBody Quiz "Failed to generate quiz")
    end.
End ApiQuizRoute.

Module MultiQuizRoute.
(** [GET] of src/pages/api/multi-quiz.ts; [None] while the generator is
    still in its loop. *)
Definition GET (J : Imports) (fuel : nat) (param : option string) (g : Rng)
  : option (Response MultiQuiz.MultiQuiz) :=
  let lang := langOrDefault param in
  if negb (supported lang) then
    Some (mkResponse 400 jsonHeaders
            (ErrorBody MultiQuiz.MultiQuiz
                       "Invalid language. Supported: de, en"))
  else
    match MultiQuiz.generateMultiQuiz J fuel (langOfCode lang) g with
    | MultiQuiz.Returned quiz _ =>
        Some (mkResponse 200 noCacheHeaders (QuizBody quiz))
    | MultiQuiz.Thrown =>
        Some (mkResponse 500 jsonHeaders
                (ErrorBody MultiQuiz.MultiQuiz
                           "Failed to generate multi-choice quiz"))
    | MultiQuiz.Running => None
    end.
End MultiQuizRoute.

(** ** src/i18n/ui.ts and src/i18n/utils.ts *)

(** [s.split(sep)] for a separator of one character. *)
Fixpoint splitOn (sep : ascii) (s : string) : list string :=
  match s with
  | EmptyString => [EmptyString]
  | String c s' =>
      if Ascii.eqb c sep then EmptyString :: splitOn sep s'
      else match splitOn sep s' with
           | h :: t => String c h :: t
           | [] => [String c EmptyString]
           end
  end.

(** The values of an imported JSON file ([VOther] is a number, a boolean or
    [null]), and what a walk through their properties can reach besides:
    a function ([VOther] as well: it is neither a string nor an object for
    [typeof]) and the two prototype objects, [Object.prototype] and
    [Array.prototype]. *)
#[warnings="-register-all"] Inductive Value :=
| VString (s : string)
| VObject (props : list (string * Value))
| VArray (items : list Value)
| VOther
| VObjectPrototype
| VArrayPrototype.

Fixpoint assoc {V} (k : string) (l : list (string * V)) : option V :=
  match l with
  | [] => None
  | (k', v) :: l' => if String.eqb k' k then Some v else assoc k l'
  end.

(** The number a property name is the array index of: its decimal digits,
    without a leading zero. *)
Definition digitOf (c : ascii) : option nat :=
  let n := nat_of_ascii c in
  if (48 <=? n)%nat && (n <=? 57)%nat then Some (n - 48) else None.

Fixpoint digitsValue (acc : nat) (s : string) : option nat :=
  match s with
  | EmptyString => Some acc
  | String c s' =>
      match digitOf c with
      | Some d => digitsValue (10 * acc + d) s'
      | None => None
      end
  end.

Definition arrayIndex (name : string) : option nat :=
  match name with
  | EmptyString => None
  | String c EmptyString => digitOf c
  | String c _ =>
      if Ascii.eqb c "0"%char then None else digitsValue 0 name
  end.

(** What [part in value] and [value[part]] find. *)
Inductive Lookup :=
| Found (v : Value)
| Missing.

Module I18n.
Section Tables.
(** The names every object, and every array, inherits from its prototype:
    they are the engine's. *)
Variable objectInherits : string -> bool.
Variable arrayInherits : string -> bool.
(** [ui] of ui.ts: the two language files. *)
Variable ui : Lang -> Value.

Definition defaultLang : Lang := en.

(** The value of an inherited property: the built-in prototypes hold
    functions, but for [__proto__], which gives the prototype of the value
    it is read on. *)
Definition inheritedValue (prototype : Value) (part : string) : Value :=
  if String.eqb part "__proto__" then prototype else VOther.

(** [value && typeof value === "object" && part in value], and [value[part]]
    when it holds: a property of the value itself, or one it inherits.
    The properties of [Object.prototype] are the names objects inherit, its
    prototype is [null]; those of [Array.prototype] are [length] and the
    names arrays inherit, its prototype is [Object.prototype]. *)
Definition lookup (value : Value) (part : string) : Lookup :=
  match value with
  | VObject props =>
      match assoc part props with
      | Some v => Found v
      | None =>
          if objectInherits part
          then Found (inheritedValue VObjectPrototype part)
          else Missing
      end
  | VArray items =>
      match arrayIndex part with
      | Some i =>
          match nth_error items i with
          | Some v => Found v
          | None =>
              if arrayInherits part
              then Found (inheritedValue VArrayPrototype part)
              else Missing
          end
      | None =>
          if String.eqb part "length" then Found VOther
          else if arrayInherits part
               then Found (inheritedValue VArrayPrototype part)
               else Missing
      end
  | VObjectPrototype =>
      if objectInherits part then Found (inheritedValue VOther part)
      else Missing
  | VArrayPrototype =>
      if String.eqb part "length" then Found VOther
      else if arrayInherits part
           then Found (inheritedValue VObjectPrototype part)
           else Missing
  | VString _ | VOther => Missing
  end.

(** How a walk through the parts of a key ends. *)
Inductive Walk :=
| Reached (v : Value)
| ReturnKey.

(** The inner loop: the walk through the default language. *)
Fixpoint walkDefault (parts : list string) (value : Value) : Walk :=
  match parts with
  | [] => Reached value
  | p :: rest =>
      match lookup value p with
      | Found v => walkDefault rest v
      | Missing => ReturnKey
      end
  end.

(** The outer loop, with [rest] of the parts still to go. *)
Fixpoint walk (parts rest : list string) (value : Value) : Walk :=
  match rest with
  | [] => Reached value
  | part :: rest' =>
      match lookup value part with
      | Found v => walk parts rest' v
      | Missing => walkDefault parts (ui defaultLang)
      end
  end.

(** [useTranslations(lang)(key)]: the string the walk arrives at, and the
    key otherwise; every call has a result. *)
Definition useTranslations (lang : Lang) (key : string) : option string :=
  let parts := splitOn "."%char key in
  match walk parts parts (ui lang) with
  | Reached (VString s) => Some s
  | Reached _ => Some key
  | ReturnKey => Some key
  end.

(** [getLangFromUrl(url)], from [url.pathname]; [None] is [undefined]. *)
Definition getLangFromUrl (pathname : string) : option string :=
  match nth_error (splitOn "/"%char pathname) 1 with
  | Some lang =>
      if existsb (String.eqb lang) ["en"; "de"] || objectInherits lang
      then Some lang
      else Some "en"
  | None =>
      if objectInherits "undefined" then None else Some "en"
  end.
End Tables.
End I18n.

(** Whether the character [c] is in [s]. *)
Fixpoint hasChar (c : ascii) (s : string) : bool :=
  match s with
  | EmptyString => false
  | String x s' => Ascii.eqb x c || hasChar c s'
  end.

(** The answers of a list whose sentence is not the sentence of an earlier
    answer, nor one of [seen]. *)
Fixpoint keepFirst (seen : list string) (l : list Answer) : list Answer :=
  match l with
  | [] => []
  | a :: l' =>
      if existsb (String.eqb (sentence a)) seen then keepFirst seen l'
      else a :: keepFirst (sentence a :: seen) l'
  end.

(** The draw of the single-answer generators that leaves no conclusion to
    build a quiz for: the library is empty, or the template drawn has an
    empty canonical list. *)
Definition nothingToAsk (J : Imports) (g : Rng) : Prop :=
  quizData J = []
  \/ exists item,
      fst (getRandomElement (quizData J) g) = Some item /\ correct item = [].

(** A language code that is given, not empty and neither "de" nor "en". *)
Definition unsupportedParam (param : option string) : Prop :=
  exists s, param = Some s /\ s <> "" /\ s <> "de" /\ s <> "en".

(** Sample language files and inherited names, for evaluation. *)
Definition sampleUi (lang : Lang) : Value :=
  match lang with
  | en =>
      VObject [("title", VString "Implications Trainer");
               ("quiz", VObject [("next", VString "Next question");
                                 ("check", VString "Check")]);
               ("terms", VArray [VString "cats"; VString "dogs"])]
  | de =>
      VObject [("title", VString "Implikationstrainer");
               ("quiz", VObject [("next", VString "Weiter")])]
  end.

Definition sampleInherits (name : string) : bool :=
  existsb (String.eqb name)
          ["constructor"; "toString"; "valueOf"; "hasOwnProperty";
           "__proto__"].

(** What [useTranslations] returns for the end of a walk through one
    language file that is not a fallback. *)
Definition textOr (key : string) (v : Value) : string :=
  match v with
  | VString s => s
  | _ => key
  end.

(** The conclusion the draws of a single-answer generator select: the
    template is drawn first, the shuffle of the vocabulary reads one draw
    less than there are terms, and the conclusion is drawn next, from the
    canonical list of the template. *)
Definition drawnConclusion (J : Imports) (lang : Lang) (g : Rng)
  : option Conclusion :=
  match fst (getRandomElement (quizData J) g) with
  | Some item =>
      fst (getRandomElement
             (correct item)
             (advance (length (termsOf J lang) - 1) (advance 1 g)))
  | None => None
  end.

(** A [shuffle] that reads one draw less than the array has entries. *)
Definition readsItsDraws
           (shuffle : forall A : Type, list A -> Rng -> Shuffled A) : Prop :=
  forall (A : Type) (l : list A) (g : Rng),
    rngAfter (shuffle A l g) = advance (length l - 1) g.


(** A library with the one template [barbara] and a vocabulary of two
    terms. *)
Definition twoTerms : Imports :=
  mkImports [barbara] Sample.templates (fun _ => ["cats"; "dogs"]).

(** * Proofs *)

Unset Implicit Arguments.

(** ** Equality tests and keys *)

Lemma QuantifierType_eqb_eq (a b : QuantifierType) :
  QuantifierType_eqb a b = true <-> a = b.
Proof. destruct a, b; simpl; split; congruence. Qed.

Lemma Var_eqb_eq (a b : Var) : Var_eqb a b = true <-> a = b.
Proof. destruct a, b; simpl; split; congruence. Qed.


Lemma Conclusion_eqb_eq (a b : Conclusion) :
  Conclusion_eqb a b = true <-> a = b.
Proof.
  destruct a as [ta sa oa], b as [tb sb ob]; unfold Conclusion_eqb; simpl.
  rewrite !andb_true_iff, QuantifierType_eqb_eq, !Var_eqb_eq.
  split; [intros [[-> ->] ->]; reflexivity | intros [= -> -> ->]; auto].
Qed.

Lemma typeName_head (t : QuantifierType) (v w : Var) (r r' : string) :
  forall t', (typeName t ++ ":" ++ r)%string = (typeName t' ++ ":" ++ r')%string ->
             t = t' /\ r = r'.
Proof.
  intros t' H; destruct t, t'; simpl in H;
    solve [ injection H as ->; auto | discriminate H ].
Qed.

Lemma keyOf_inj (t t' : QuantifierType) (s s' o o' : Var) :
  keyOf t s o = keyOf t' s' o' -> t = t' /\ s = s' /\ o = o'.
Proof.
  unfold keyOf; intros H.
  apply (typeName_head t s o) in H; destruct H as [-> H].
  destruct s, s', o, o'; simpl in H;
    solve [ auto | discriminate H ].
Qed.

Lemma conclusionKey_inj (a b : Conclusion) :
  conclusionKey a = conclusionKey b -> a = b.
Proof.
  destruct a, b; unfold conclusionKey; simpl; intros H.
  apply keyOf_inj in H; destruct H as (-> & -> & ->); reflexivity.
Qed.

(** ** The map of unique conclusions *)

Lemma set_present (c : Conclusion) (m : JsMap.t Conclusion) :
  keyed m -> In c (JsMap.values m) -> JsMap.set (conclusionKey c) c m = m.
Proof.
  unfold JsMap.values; induction m as [|[k v] m IH]; simpl; intros Hk Hin.
  - contradiction.
  - inversion Hk as [|? ? Hkv Hm]; subst; simpl in Hkv; subst k.
    destruct (String.eqb_spec (conclusionKey v) (conclusionKey c)) as [E|E].
    + apply conclusionKey_inj in E; subst; reflexivity.
    + destruct Hin as [->|Hin]; [congruence|].
      rewrite IH; auto.
Qed.

Lemma set_absent (c : Conclusion) (m : JsMap.t Conclusion) :
  keyed m -> ~ In c (JsMap.values m) ->
  JsMap.set (conclusionKey c) c m = m ++ [(conclusionKey c, c)].
Proof.
  unfold JsMap.values; induction m as [|[k v] m IH]; simpl; intros Hk Hin.
  - reflexivity.
  - inversion Hk as [|? ? Hkv Hm]; subst; simpl in Hkv; subst k.
    destruct (String.eqb_spec (conclusionKey v) (conclusionKey c)) as [E|E].
    + apply conclusionKey_inj in E; subst; tauto.
    + rewrite IH; auto.
Qed.

Lemma Conclusion_in_dec (c : Conclusion) (l : list Conclusion) :
  In c l \/ ~ In c l.
Proof.
  destruct (existsb (Conclusion_eqb c) l) eqn:E.
  - left; apply existsb_exists in E; destruct E as (x & Hx & E).
    apply Conclusion_eqb_eq in E; subst; assumption.
  - right; intros Hin.
    assert (existsb (Conclusion_eqb c) l = true) as E'
        by (apply existsb_exists; exists c; split; auto;
            apply Conclusion_eqb_eq; reflexivity).
    congruence.
Qed.

(** Inserting the conclusions of [l] into a keyed, duplicate-free map [m]:
    [m] stays a prefix, the values are those of [m] and of [l], and no
    value comes twice. *)
Lemma insert_all (l : list Conclusion) :
  forall m : JsMap.t Conclusion,
    keyed m -> NoDup (JsMap.values m) ->
    let r := fold_left (fun u c => JsMap.set (conclusionKey c) c u) l m in
    keyed r /\ NoDup (JsMap.values r)
    /\ (forall c, In c (JsMap.values r) <-> In c (JsMap.values m) \/ In c l)
    /\ (incl l (JsMap.values m) -> r = m).
Proof.
  induction l as [|c l IH]; simpl; intros m Hk Hnd.
  - repeat split; auto; tauto.
  - destruct (Conclusion_in_dec c (JsMap.values m)) as [Hin|Hout].
    + rewrite (set_present c m Hk Hin).
      destruct (IH m Hk Hnd) as (K & N & M & P).
      repeat split; auto.
      * intros H; apply M in H; tauto.
      * intros [H|[->|H]]; apply M; auto.
      * intros Hincl; apply P; intros x Hx; apply Hincl; right; assumption.
    + rewrite (set_absent c m Hk Hout).
      assert (keyed (m ++ [(conclusionKey c, c)])) as Hk'
          by (apply Forall_app; split; auto; constructor; auto).
      assert (NoDup (JsMap.values (m ++ [(conclusionKey c, c)]))) as Hnd'.
      { unfold JsMap.values in *; rewrite map_app; simpl.
        apply NoDup_app; [assumption | constructor; [intros []|constructor] |].
        intros x Hx [<-|[]]; contradiction. }
      destruct (IH _ Hk' Hnd') as (K & N & M & P).
      assert (forall x, In x (JsMap.values (m ++ [(conclusionKey c, c)]))
                        <-> In x (JsMap.values m) \/ x = c) as Happ.
      { intros x; unfold JsMap.values; rewrite map_app, in_app_iff; simpl.
        intuition congruence. }
      repeat split; auto.
      * intros H; apply M in H; rewrite Happ in H; intuition.
      * intros H; apply M; rewrite Happ; intuition.
      * intros Hincl; exfalso; apply Hout, Hincl; left; reflexivity.
Qed.

Lemma uniqueOf_spec (l : list Conclusion) :
  NoDup (JsMap.values (MultiQuiz.uniqueOf l))
  /\ forall c, In c (JsMap.values (MultiQuiz.uniqueOf l)) <-> In c l.
Proof.
  destruct (insert_all l [] (Forall_nil _) (NoDup_nil _)) as (_ & N & M & _).
  split; [exact N|].
  intros c; rewrite (M c); simpl; tauto.
Qed.

(** Inserting a duplicate-free list and then conclusions it already has
    gives the list back, in its order. *)
Lemma uniqueOf_stable (l extra : list Conclusion) :
  NoDup l -> incl extra l ->
  JsMap.values (MultiQuiz.uniqueOf (l ++ extra)) = l.
Proof.
  intros Hnd Hincl; unfold MultiQuiz.uniqueOf; rewrite fold_left_app.
  set (m := map (fun c => (conclusionKey c, c)) l).
  assert (JsMap.values m = l) as Hv
      by (unfold m, JsMap.values; rewrite map_map; simpl; apply map_id).
  assert (keyed m) as Hk
      by (unfold m, keyed; apply Forall_map, Forall_forall; simpl; auto).
  assert (fold_left (fun u c => JsMap.set (conclusionKey c) c u) l [] = m)
    as Hfold.
  { assert (forall pre rest, NoDup (pre ++ rest) ->
              fold_left (fun u c => JsMap.set (conclusionKey c) c u) rest
                        (map (fun c => (conclusionKey c, c)) pre)
              = map (fun c => (conclusionKey c, c)) (pre ++ rest)) as G.
    { intros pre rest; revert pre.
      induction rest as [|c rest IH]; intros pre Hn; simpl.
      - rewrite app_nil_r; reflexivity.
      - rewrite set_absent.
        + replace (map (fun c0 => (conclusionKey c0, c0)) pre
                   ++ [(conclusionKey c, c)])
            with (map (fun c0 => (conclusionKey c0, c0)) (pre ++ [c]))
            by (rewrite map_app; reflexivity).
          rewrite IH by (rewrite <- app_assoc; exact Hn).
          rewrite <- app_assoc; reflexivity.
        + apply Forall_map, Forall_forall; simpl; auto.
        + unfold JsMap.values; rewrite map_map; simpl; rewrite map_id.
          apply NoDup_remove_2 in Hn; intros H; apply Hn, in_app_iff; auto. }
    apply (G [] l Hnd). }
  rewrite Hfold.
  destruct (insert_all extra m Hk) as (_ & _ & _ & P);
    [rewrite Hv; exact Hnd|].
  rewrite P by (rewrite Hv; exact Hincl).
  exact Hv.
Qed.

(** ** The entailment expansion *)

Lemma pushed_licensed (stmt : Statement) :
  MultiQuiz.pushed stmt = licensed stmt.
Proof. destruct stmt as [[] a b]; reflexivity. Qed.

Lemma derivedOf_app (item : QuizItem) :
  MultiQuiz.derivedOf item
  = correct item ++ licensed (statement1 item) ++ licensed (statement2 item).
Proof.
  unfold MultiQuiz.derivedOf; simpl.
  rewrite !pushed_licensed, <- app_assoc; reflexivity.
Qed.

Lemma expand_NoDup (item : QuizItem) :
  NoDup (MultiQuiz.expandCorrectAnswers item).
Proof. apply uniqueOf_spec. Qed.

Lemma expand_In (item : QuizItem) (c : Conclusion) :
  In c (MultiQuiz.expandCorrectAnswers item)
  <-> In c (correct item) \/ In c (licensed (statement1 item))
      \/ In c (licensed (statement2 item)).
Proof.
  unfold MultiQuiz.expandCorrectAnswers.
  rewrite (proj2 (uniqueOf_spec _)), derivedOf_app, !in_app_iff; tauto.
Qed.

(** C1: the expansion of a template has exactly the conclusions of its
    canonical list and the conclusions each premise licenses on its own
    (All(A,B): Some(A,B) and Some(B,A); Some(A,B): Some(B,A); None(A,B):
    None(B,A); SomeNot: none), without a repeated triple; Barbara expands
    to All(X,Z), Some(X,Y), Some(Y,X), Some(Y,Z), Some(Z,Y). *)
Theorem expansion_is_union :
  (forall item c,
      In c (MultiQuiz.expandCorrectAnswers item)
      <-> In c (correct item)
          \/ exists stmt, In stmt (statements item) /\ In c (licensed stmt))
  /\ (forall item, NoDup (MultiQuiz.expandCorrectAnswers item))
  /\ MultiQuiz.expandCorrectAnswers barbara
     = [mkConclusion q_all X Z; mkConclusion q_some X Y;
        mkConclusion q_some Y X; mkConclusion q_some Y Z;
        mkConclusion q_some Z Y].
Proof.
  split; [|split].
  - intros item c; rewrite expand_In; unfold statements; simpl; split.
    + intros [H|[H|H]]; [left; assumption | right | right].
      * exists (statement1 item); auto.
      * exists (statement2 item); auto.
    + intros [H|(stmt & [<-|[<-|[]]] & H)]; auto.
  - exact expand_NoDup.
  - reflexivity.
Qed.

(** C9: expanding a template whose canonical list is already its expansion
    gives that expansion again, and an expansion never holds the same triple
    twice. *)
Theorem expansion_idempotent :
  forall item,
    MultiQuiz.expandCorrectAnswers
      (withCorrect item (MultiQuiz.expandCorrectAnswers item))
    = MultiQuiz.expandCorrectAnswers item
    /\ NoDup (MultiQuiz.expandCorrectAnswers item).
Proof.
  intros item; split; [|apply expand_NoDup].
  unfold MultiQuiz.expandCorrectAnswers at 1.
  rewrite derivedOf_app; simpl.
  apply uniqueOf_stable; [apply expand_NoDup|].
  intros c Hc; apply expand_In; apply in_app_iff in Hc; tauto.
Qed.

(** Ferio, as the specification has it: the SomeNot conclusion, with the
    Some and the None conclusion of its premises read backwards; the
    template is valid. *)
Example ferio_expansion :
  MultiQuiz.expandCorrectAnswers ferio
  = [mkConclusion q_some_none X Z; mkConclusion q_some Y X;
     mkConclusion q_none Z Y]
  /\ MultiQuiz.isValid ferio = true.
Proof. split; reflexivity. Qed.

(** ** Labels of the multi-answer candidates *)

Lemma isCorrectLabel_spec (expansion : list Conclusion) (c : Conclusion) :
  MultiQuiz.isCorrectLabel expansion c = true
  <-> In c expansion
      \/ (ctype c = q_some
          /\ In (mkConclusion q_some (cobject c) (csubject c)) expansion).
Proof.
  unfold MultiQuiz.isCorrectLabel; rewrite existsb_exists; split.
  - intros (k & Hin & H).
    rewrite andb_true_iff, orb_true_iff, !andb_true_iff in H.
    rewrite !QuantifierType_eqb_eq, !Var_eqb_eq in H.
    destruct k as [kt ks ko], c as [t s o]; simpl in *.
    destruct H as [-> [[-> ->]|[[-> ->] ->]]]; auto.
  - intros [Hin|[Ht Hin]].
    + exists c; split; [assumption|].
      rewrite andb_true_iff, orb_true_iff, !andb_true_iff.
      rewrite !QuantifierType_eqb_eq, !Var_eqb_eq; auto.
    + eexists; split; [exact Hin|]; cbn [ctype csubject cobject].
      rewrite andb_true_iff, orb_true_iff, !andb_true_iff.
      rewrite !QuantifierType_eqb_eq, !Var_eqb_eq; auto.
Qed.

Lemma existsb_eqb_In (k : string) (l : list string) :
  existsb (String.eqb k) l = true <-> In k l.
Proof.
  rewrite existsb_exists; split.
  - intros (x & Hx & E); apply String.eqb_eq in E; subst; assumption.
  - intros H; exists k; split; [assumption | apply String.eqb_refl].
Qed.

Lemma candidatesOf_filter (baseKeys : list string) (type : QuantifierType) :
  MultiQuiz.candidatesOf baseKeys type
  = filter (fun c => negb (existsb (String.eqb (conclusionKey c)) baseKeys))
           (MultiQuiz.candidatesOf [] type).
Proof.
  unfold MultiQuiz.candidatesOf, conclusionKey; simpl.
  repeat match goal with
         | |- context [existsb ?f baseKeys] => destruct (existsb f baseKeys)
         end; reflexivity.
Qed.

Lemma candidatesOf_type (baseKeys : list string) (type : QuantifierType)
      (c : Conclusion) :
  In c (MultiQuiz.candidatesOf baseKeys type) -> ctype c = type.
Proof.
  rewrite candidatesOf_filter; intros H; apply filter_In in H.
  destruct H as [H _]; simpl in H.
  repeat (destruct H as [<-|H]; [reflexivity|]); contradiction.
Qed.

Lemma candidates_filter (item : QuizItem) :
  candidates item
  = filter (fun c => negb (existsb (String.eqb (conclusionKey c))
                                   (map statementKey (statements item))))
           allCandidates.
Proof.
  unfold candidates, allCandidates, allTypes.
  cbn [flat_map QuantifierType_eqb].
  rewrite !filter_app, <- !candidatesOf_filter; reflexivity.
Qed.

Lemma allCandidates_In (c : Conclusion) :
  In c allCandidates <-> ctype c <> q_unknown /\ csubject c <> cobject c.
Proof.
  split.
  - intros H; vm_compute in H.
    repeat (destruct H as [<-|H]; [simpl; split; discriminate|]).
    contradiction.
  - destruct c as [[] [] []]; simpl; intros [Ht Hv];
      try congruence; vm_compute; tauto.
Qed.

Lemma candidates_In (item : QuizItem) (c : Conclusion) :
  In c (candidates item)
  <-> ctype c <> q_unknown /\ csubject c <> cobject c
      /\ ~ In (conclusionKey c) (map statementKey (statements item)).
Proof.
  rewrite candidates_filter, filter_In, allCandidates_In, negb_true_iff.
  rewrite <- existsb_eqb_In, not_true_iff_false; tauto.
Qed.

Lemma possibleAnswers_map (t : QuantifierType -> string) (tm : Var -> string)
      (item : QuizItem) :
  MultiQuiz.possibleAnswers t tm item = map (answerOf t tm item) (candidates item).
Proof.
  unfold MultiQuiz.possibleAnswers, candidates.
  rewrite flat_map_concat_map, (flat_map_concat_map _ allTypes).
  rewrite concat_map, map_map; f_equal.
  apply map_ext; intros type.
  destruct (QuantifierType_eqb type q_unknown); [reflexivity|].
  apply map_ext_in; intros c Hc.
  apply candidatesOf_type in Hc; subst type; reflexivity.
Qed.

(** C5: a candidate is labelled correct exactly when the expansion has its
    triple, or it is of kind Some and the expansion has its triple read
    backwards; every answer of the candidate pool carries that label; a
    None candidate whose backwards triple alone is in the expansion is
    labelled incorrect, where a Some candidate is labelled correct. *)
Theorem label_rule :
  (forall expansion c,
      MultiQuiz.isCorrectLabel expansion c = true
      <-> In c expansion
          \/ (ctype c = q_some
              /\ In (mkConclusion q_some (cobject c) (csubject c)) expansion))
  /\ (forall t tm item,
         MultiQuiz.possibleAnswers t tm item
         = map (fun c =>
                  mkAnswer (fill (t (ctype c)) (tm (csubject c))
                                 (tm (cobject c)))
                           (MultiQuiz.isCorrectLabel
                              (MultiQuiz.expandCorrectAnswers item) c))
               (candidates item))
  /\ MultiQuiz.isCorrectLabel [mkConclusion q_none X Z]
                              (mkConclusion q_none Z X) = false
  /\ MultiQuiz.isCorrectLabel [mkConclusion q_some X Z]
                              (mkConclusion q_some Z X) = true.
Proof.
  split; [exact isCorrectLabel_spec|].
  split; [exact possibleAnswers_map|].
  split; reflexivity.
Qed.

(** ** Shuffling permutes *)

Lemma update_swap_out {A} (i : nat) (x y : A) (l : list A) :
  nth_error l i = Some x -> Permutation (y :: l) (x :: update i y l).
Proof.
  revert i; induction l as [|a l IH]; intros [|i] H; simpl in *;
    try discriminate.
  - injection H as ->; apply perm_swap.
  - eapply perm_trans; [apply perm_swap|].
    eapply perm_trans; [apply perm_skip, IH, H|].
    apply perm_swap.
Qed.

Lemma nth_error_update {A} (i j : nat) (y : A) (l : list A) :
  i < length l ->
  nth_error (update i y l) j = if Nat.eqb i j then Some y else nth_error l j.
Proof.
  revert i j; induction l as [|a l IH]; intros [|i] [|j] H; simpl in *;
    try lia; try reflexivity.
  apply IH; lia.
Qed.

Lemma swap_Permutation {A} (i j : nat) (l : list A) :
  Permutation (swap i j l) l.
Proof.
  unfold swap.
  destruct (nth_error l i) as [x|] eqn:Hi; [|reflexivity].
  destruct (nth_error l j) as [y|] eqn:Hj; [|reflexivity].
  apply (Permutation_cons_inv (a := y)).
  apply Permutation_sym.
  eapply perm_trans; [apply (update_swap_out i x y l Hi)|].
  apply update_swap_out.
  rewrite nth_error_update by (apply nth_error_Some; congruence).
  destruct (Nat.eqb_spec i j) as [->|]; congruence.
Qed.

Lemma shuffleLoop_Permutation {A} (i : nat) :
  forall (a : list A) (g : Rng), Permutation (fst (shuffleLoop i a g)) a.
Proof.
  induction i as [|i IH]; intros a g; simpl; [reflexivity|].
  eapply perm_trans; [apply IH | apply swap_Permutation].
Qed.

Lemma QuizGenerator_shuffle_rearranges : rearranges QuizGenerator.shuffle.
Proof.
  intros A l g; unfold QuizGenerator.shuffle.
  pose proof (shuffleLoop_Permutation (length l - 1) l g) as H.
  destruct (shuffleLoop (length l - 1) l g); exact H.
Qed.

Lemma ApiQuiz_shuffle_rearranges : rearranges ApiQuiz.shuffle.
Proof.
  intros A l g; unfold ApiQuiz.shuffle.
  pose proof (shuffleLoop_Permutation (length l - 1) l g) as H.
  destruct (shuffleLoop (length l - 1) l g); exact H.
Qed.

Lemma MultiQuiz_shuffle_rearranges : rearranges MultiQuiz.shuffle.
Proof.
  intros A l g; unfold MultiQuiz.shuffle.
  pose proof (shuffleLoop_Permutation (length l - 1) l g) as H.
  destruct (shuffleLoop (length l - 1) l g); exact H.
Qed.

Lemma ApiQuiz_shuffle_passed {A} (l : list A) (g : Rng) :
  passed (ApiQuiz.shuffle l g) = l.
Proof.
  unfold ApiQuiz.shuffle; destruct (shuffleLoop (length l - 1) l g);
    reflexivity.
Qed.

Lemma MultiQuiz_shuffle_passed {A} (l : list A) (g : Rng) :
  passed (MultiQuiz.shuffle l g) = l.
Proof.
  unfold MultiQuiz.shuffle; destruct (shuffleLoop (length l - 1) l g);
    reflexivity.
Qed.

(** ** The single-answer generators *)

Lemma randomBelow_lt (n : nat) (g : Rng) :
  0 < n -> fst (randomBelow n g) < n.
Proof.
  unfold randomBelow; destruct n as [|n]; cbn [fst]; [lia|].
  intros _; apply Nat.mod_upper_bound; discriminate.
Qed.

Lemma getRandomElement_In {A} (l : list A) (g : Rng) (a : A) :
  fst (getRandomElement l g) = Some a -> In a l.
Proof.
  unfold getRandomElement.
  destruct (randomBelow (length l) g) as [i g1]; simpl.
  apply nth_error_In.
Qed.

Lemma getRandomElement_Some {A} (l : list A) (g : Rng) :
  l <> [] -> exists a, fst (getRandomElement l g) = Some a.
Proof.
  intros Hl; unfold getRandomElement.
  pose proof (randomBelow_lt (length l) g) as Hlt.
  destruct (randomBelow (length l) g) as [i g1]; simpl in *.
  destruct (nth_error l i) as [a|] eqn:E; [exists a; reflexivity|].
  apply nth_error_None in E.
  destruct l; [congruence | simpl in *; lia].
Qed.

Lemma advance_0 (g : Rng) : advance 0 g = g.
Proof. destruct g; unfold advance; simpl; f_equal; lia. Qed.

Lemma getRandomElement_rng {A} (l : list A) (g : Rng) :
  snd (getRandomElement l g) = advance 1 g.
Proof. unfold getRandomElement, advance; simpl; f_equal; lia. Qed.

Lemma advance_advance (i j : nat) (g : Rng) :
  advance i (advance j g) = advance (j + i) g.
Proof. unfold advance; simpl; f_equal; lia. Qed.

Lemma shuffleLoop_rng {A} (i : nat) :
  forall (a : list A) (g : Rng), snd (shuffleLoop i a g) = advance i g.
Proof.
  induction i as [|i IH]; intros a g.
  - simpl; symmetry; apply advance_0.
  - cbn [shuffleLoop]; unfold randomBelow; cbv zeta.
    rewrite IH; unfold advance; simpl; f_equal; lia.
Qed.

(** Each of the three [shuffle]s reads one draw less than the array has
    entries. *)
Lemma shuffles_read_their_draws :
  readsItsDraws QuizGenerator.shuffle
  /\ readsItsDraws ApiQuiz.shuffle
  /\ readsItsDraws MultiQuiz.shuffle.
Proof.
  repeat split; intros A l g;
    pose proof (shuffleLoop_rng (length l - 1) l g) as Hr;
    unfold QuizGenerator.shuffle, ApiQuiz.shuffle, MultiQuiz.shuffle;
    destruct (shuffleLoop (length l - 1) l g) as [l' g1];
    exact Hr.
Qed.

Section SingleAnswerFacts.
Variable shuffle : forall A : Type, list A -> Rng -> Shuffled A.
Hypothesis shuffle_rearranges : rearranges shuffle.
Variable J : Imports.

(** What a returned quiz is made of. *)
Lemma generateQuizFrom_inv (lang : Lang) (g : Rng) (quiz : Quiz)
      (c : Conclusion) (terms : list string) (g' : Rng) :
  generateQuizFrom shuffle J lang g = Some (quiz, c, terms, g') ->
  exists item others,
    In item (quizData J) /\ In c (correct item)
    /\ terms = passed (shuffle _ (termsOf J lang)
                               (snd (getRandomElement (quizData J) g)))
    /\ Permutation others (shuffledFour (templatesOf J lang) terms c)
    /\ answers quiz
       = others ++ [unknownAnswerFor (templatesOf J lang) terms c]
    /\ baseSentences quiz
       = map (fun s => sentenceOf (templatesOf J lang) (termMapOf terms)
                                  (asConclusion s))
             (statements item).
Proof.
  unfold generateQuizFrom.
  destruct (getRandomElement (quizData J) g) as [oi g1] eqn:E1.
  destruct oi as [item|]; [|discriminate].
  cbv zeta.
  destruct (getRandomElement (correct item) _) as [oc g2] eqn:E2.
  destruct oc as [c0|]; [|discriminate].
  intros H; injection H as <- <- <- <-.
  exists item.
  eexists (map untyped (returned (shuffle TypedAnswer _ g2))).
  split; [apply (getRandomElement_In _ g); rewrite E1; reflexivity|].
  split; [eapply getRandomElement_In; rewrite E2; reflexivity|].
  split; [reflexivity|].
  split; [|split].
  2: cbn [answers]; rewrite map_app; reflexivity.
  2: reflexivity.
  match goal with
  | |- Permutation (map untyped (returned (shuffle _ ?L ?r))) _ =>
      exact (Permutation_map untyped (shuffle_rearranges _ L r))
  end.
Qed.

(** With a template to draw and a conclusion to draw from it, a quiz is
    returned. *)
Lemma generateQuizFrom_total (lang : Lang) (g : Rng) :
  quizData J <> [] ->
  (forall item, In item (quizData J) -> correct item <> []) ->
  exists quiz c terms g',
    generateQuizFrom shuffle J lang g = Some (quiz, c, terms, g').
Proof.
  intros Hd Hc; unfold generateQuizFrom.
  destruct (getRandomElement_Some (quizData J) g Hd) as (item & E1).
  pose proof (getRandomElement_In _ _ _ E1) as Hin.
  destruct (getRandomElement (quizData J) g) as [oi g1].
  simpl in E1; subst oi; cbv zeta.
  match goal with
  | |- context [getRandomElement (correct item) ?r] =>
      destruct (getRandomElement_Some (correct item) r (Hc item Hin))
        as (c & E2);
      destruct (getRandomElement (correct item) r) as [oc g2]
  end.
  simpl in E2; subst oc.
  do 4 eexists; reflexivity.
Qed.
End SingleAnswerFacts.

(** The conclusion of a returned quiz is the one the draws select, and the
    terms are read from the array the shuffle was handed. *)
Lemma generateQuizFrom_draws
      (shuffle : forall A : Type, list A -> Rng -> Shuffled A)
      (J : Imports) (lang : Lang) (g : Rng) (quiz : Quiz) (c : Conclusion)
      (terms : list string) (g' : Rng) :
  readsItsDraws shuffle ->
  generateQuizFrom shuffle J lang g = Some (quiz, c, terms, g') ->
  exists item,
    fst (getRandomElement (quizData J) g) = Some item
    /\ In item (quizData J)
    /\ drawnConclusion J lang g = Some c
    /\ In c (correct item)
    /\ terms = passed (shuffle _ (termsOf J lang) (advance 1 g)).
Proof.
  intros Hreads; unfold generateQuizFrom, drawnConclusion.
  pose proof (getRandomElement_rng (quizData J) g) as Hg.
  pose proof (getRandomElement_In (quizData J) g) as Hin.
  destruct (getRandomElement (quizData J) g) as [oi g1].
  cbn [fst snd] in *; subst g1.
  destruct oi as [item|]; [|discriminate].
  cbv zeta; rewrite Hreads.
  pose proof (getRandomElement_In
                (correct item)
                (advance (length (termsOf J lang) - 1) (advance 1 g))) as Hc.
  destruct (getRandomElement (correct item) _) as [oc g2].
  destruct oc as [c0|]; [|discriminate].
  intros H; injection H as <- <- <- <-.
  exists item; repeat split; auto.
Qed.

Lemma generateQuizWith_inv
      (shuffle : forall A : Type, list A -> Rng -> Shuffled A)
      (J : Imports) (lang : Lang) (g : Rng) (quiz : Quiz) :
  generateQuizWith shuffle J lang g = Some quiz ->
  exists c terms g',
    generateQuizFrom shuffle J lang g = Some (quiz, c, terms, g').
Proof.
  unfold generateQuizWith.
  destruct (generateQuizFrom shuffle J lang g) as [[[[q c] terms] g']|];
    [|discriminate].
  intros [= <-]; eauto.
Qed.

Lemma filter_Permutation {A} (keep : A -> bool) :
  forall before after : list A,
    Permutation before after ->
    Permutation (filter keep before) (filter keep after).
Proof.
  intros before after.
  induction 1 as [|x l l' _ IH|x y l|l l' l'' _ IH1 _ IH2]; simpl.
  - constructor.
  - destruct (keep x); [constructor|]; assumption.
  - destruct (keep x), (keep y); try reflexivity; apply perm_swap.
  - eapply perm_trans; eassumption.
Qed.

Lemma shuffledFour_correct (t : QuantifierType -> string)
      (terms : list string) (c : Conclusion) :
  length (filter isCorrect (shuffledFour t terms c))
  = if QuantifierType_eqb q_unknown (ctype c) then 0 else 1.
Proof. destruct c as [[] s o]; reflexivity. Qed.

Lemma shape_of_parts (t : QuantifierType -> string) (terms : list string)
      (c : Conclusion) (quiz : Quiz) (others : list Answer) :
  Permutation others (shuffledFour t terms c) ->
  answers quiz = others ++ [unknownAnswerFor t terms c] ->
  singleAnswerShape t terms c quiz.
Proof.
  intros Hp Ha; unfold singleAnswerShape; rewrite Ha.
  pose proof (Permutation_length Hp) as Hl; simpl in Hl.
  pose proof (Permutation_length (filter_Permutation isCorrect _ _ Hp)) as Hf.
  rewrite shuffledFour_correct in Hf.
  split; [rewrite length_app; simpl; lia|].
  split.
  - rewrite filter_app, length_app, Hf; unfold unknownAnswerFor; simpl.
    destruct (ctype c); reflexivity.
  - rewrite nth_error_app2 by lia; rewrite Hl; reflexivity.
Qed.

(** C2: with a template to draw and a conclusion to draw from it, each of
    the two single-answer generators returns a quiz, for every language and
    every sequence of draws.  The quiz is built for the conclusion that the
    draws select from the canonical list of the template that they select
    from the library; it has five answers, exactly one of them correct, and
    its last answer is the Unknown sentence on the subject and object of
    that conclusion, worded with the terms of the vocabulary: as shuffled
    in the component, as imported in the API route. *)
Theorem single_answer_shape :
  forall J lang g,
    quizData J <> [] ->
    (forall item, In item (quizData J) -> correct item <> []) ->
    exists item c,
      fst (getRandomElement (quizData J) g) = Some item
      /\ In item (quizData J)
      /\ drawnConclusion J lang g = Some c
      /\ In c (correct item)
      /\ (exists quiz g',
             generateQuizFrom QuizGenerator.shuffle J lang g
             = Some (quiz, c,
                     returned (QuizGenerator.shuffle (termsOf J lang)
                                                     (advance 1 g)), g')
             /\ QuizGenerator.generateQuiz J lang g = Some quiz
             /\ singleAnswerShape
                  (templatesOf J lang)
                  (returned (QuizGenerator.shuffle (termsOf J lang)
                                                   (advance 1 g)))
                  c quiz)
      /\ (exists quiz g',
             generateQuizFrom ApiQuiz.shuffle J lang g
             = Some (quiz, c, termsOf J lang, g')
             /\ ApiQuiz.generateQuiz J lang g = Some quiz
             /\ singleAnswerShape (templatesOf J lang) (termsOf J lang)
                                  c quiz).
Proof.
  intros J lang g Hd Hc.
  destruct shuffles_read_their_draws as (HrQ & HrA & _).
  destruct (generateQuizFrom_total QuizGenerator.shuffle J lang g Hd Hc)
    as (quizQ & cQ & termsQ & gQ & EQ).
  destruct (generateQuizFrom_total ApiQuiz.shuffle J lang g Hd Hc)
    as (quizA & cA & termsA & gA & EA).
  destruct (generateQuizFrom_draws _ _ _ _ _ _ _ _ HrQ EQ)
    as (item & Hitem & Hin & Hdrawn & Hcin & HtQ).
  destruct (generateQuizFrom_draws _ _ _ _ _ _ _ _ HrA EA)
    as (item' & Hitem' & _ & Hdrawn' & _ & HtA).
  assert (cA = cQ) as -> by congruence.
  rewrite ApiQuiz_shuffle_passed in HtA.
  replace (passed (QuizGenerator.shuffle (termsOf J lang) (advance 1 g)))
    with (returned (QuizGenerator.shuffle (termsOf J lang) (advance 1 g)))
    in HtQ
    by (unfold QuizGenerator.shuffle; destruct (shuffleLoop _ _ _);
        reflexivity).
  subst termsQ termsA.
  exists item, cQ; repeat (split; [assumption|]); split.
  - exists quizQ, gQ; split; [exact EQ|].
    split; [unfold QuizGenerator.generateQuiz, generateQuizWith;
            rewrite EQ; reflexivity|].
    destruct (generateQuizFrom_inv _ QuizGenerator_shuffle_rearranges
                                   _ _ _ _ _ _ _ EQ)
      as (it & others & _ & _ & _ & Hp & Ha & _).
    eapply shape_of_parts; eassumption.
  - exists quizA, gA; split; [exact EA|].
    split; [unfold ApiQuiz.generateQuiz, generateQuizWith;
            rewrite EA; reflexivity|].
    destruct (generateQuizFrom_inv _ ApiQuiz_shuffle_rearranges
                                   _ _ _ _ _ _ _ EA)
      as (it & others & _ & _ & _ & Hp & Ha & _).
    eapply shape_of_parts; eassumption.
Qed.

Lemma sample_has_conclusions :
  forall item, In item (quizData Sample.imports) -> correct item <> [].
Proof.
  intros item H; simpl in H.
  repeat (destruct H as [<-|H]; [discriminate|]); contradiction.
Defined.

Lemma single_answer_shape_witness :
  exists item c,
    fst (getRandomElement (quizData Sample.imports) counting) = Some item
    /\ In item (quizData Sample.imports)
    /\ drawnConclusion Sample.imports en counting = Some c
    /\ In c (correct item)
    /\ (exists quiz g',
           generateQuizFrom QuizGenerator.shuffle Sample.imports en counting
           = Some (quiz, c,
                   returned (QuizGenerator.shuffle
                               (termsOf Sample.imports en)
                               (advance 1 counting)), g')
           /\ QuizGenerator.generateQuiz Sample.imports en counting
              = Some quiz
           /\ singleAnswerShape
                (templatesOf Sample.imports en)
                (returned (QuizGenerator.shuffle
                             (termsOf Sample.imports en)
                             (advance 1 counting)))
                c quiz)
    /\ (exists quiz g',
           generateQuizFrom ApiQuiz.shuffle Sample.imports en counting
           = Some (quiz, c, termsOf Sample.imports en, g')
           /\ ApiQuiz.generateQuiz Sample.imports en counting = Some quiz
           /\ singleAnswerShape (templatesOf Sample.imports en)
                                (termsOf Sample.imports en) c quiz).
Proof.
  apply (single_answer_shape Sample.imports en counting).
  - discriminate.
  - exact sample_has_conclusions.
Defined.

(** C10: a quiz of either single-answer generator is built for the
    conclusion that the draws select from the canonical list of the
    template drawn.  Its last answer is the Unknown sentence on the pair of
    that conclusion, and it is marked correct exactly when that conclusion
    is of kind unknown; when it is not, the one correct answer is among the
    four shuffled answers before it, and when it is, none of those four is
    correct. *)
Theorem unknown_slot_tells :
  forall J lang g quiz,
    QuizGenerator.generateQuiz J lang g = Some quiz
    \/ ApiQuiz.generateQuiz J lang g = Some quiz ->
    exists item c terms others last,
      fst (getRandomElement (quizData J) g) = Some item
      /\ drawnConclusion J lang g = Some c
      /\ In c (correct item)
      /\ Permutation terms (termsOf J lang)
      /\ answers quiz = others ++ [last]
      /\ length others = 4
      /\ last = mkAnswer (fill (templatesOf J lang q_unknown)
                               (termMapOf terms (csubject c))
                               (termMapOf terms (cobject c)))
                         (QuantifierType_eqb q_unknown (ctype c))
      /\ (isCorrect last = true <-> ctype c = q_unknown)
      /\ (ctype c <> q_unknown ->
          length (filter isCorrect others) = 1 /\ isCorrect last = false)
      /\ (ctype c = q_unknown -> filter isCorrect others = []).
Proof.
  intros J lang g quiz H.
  destruct shuffles_read_their_draws as (HrQ & HrA & _).
  assert (exists item c terms others,
             fst (getRandomElement (quizData J) g) = Some item
             /\ drawnConclusion J lang g = Some c
             /\ In c (correct item)
             /\ Permutation terms (termsOf J lang)
             /\ Permutation others
                            (shuffledFour (templatesOf J lang) terms c)
             /\ answers quiz
                = others ++ [unknownAnswerFor (templatesOf J lang) terms c])
    as (item & c & terms & others & Hitem & Hdrawn & Hcin & Hterms & Hp & Ha).
  { destruct H as [E|E]; apply generateQuizWith_inv in E;
      destruct E as (c & terms & g' & E).
    - destruct (generateQuizFrom_draws _ _ _ _ _ _ _ _ HrQ E)
        as (item & Hitem & _ & Hdrawn & Hcin & Ht).
      destruct (generateQuizFrom_inv _ QuizGenerator_shuffle_rearranges
                                     _ _ _ _ _ _ _ E)
        as (it & others & _ & _ & _ & Hp & Ha & _).
      exists item, c, terms, others; repeat (split; [assumption|]).
      split; [|split; assumption].
      rewrite Ht.
      replace (passed (QuizGenerator.shuffle (termsOf J lang) (advance 1 g)))
        with (returned (QuizGenerator.shuffle (termsOf J lang)
                                              (advance 1 g)))
        by (unfold QuizGenerator.shuffle; destruct (shuffleLoop _ _ _);
            reflexivity).
      apply QuizGenerator_shuffle_rearranges.
    - destruct (generateQuizFrom_draws _ _ _ _ _ _ _ _ HrA E)
        as (item & Hitem & _ & Hdrawn & Hcin & Ht).
      destruct (generateQuizFrom_inv _ ApiQuiz_shuffle_rearranges
                                     _ _ _ _ _ _ _ E)
        as (it & others & _ & _ & _ & Hp & Ha & _).
      exists item, c, terms, others; repeat (split; [assumption|]).
      split; [|split; assumption].
      rewrite Ht, ApiQuiz_shuffle_passed; reflexivity. }
  exists item, c, terms, others,
    (unknownAnswerFor (templatesOf J lang) terms c).
  pose proof (Permutation_length Hp) as Hl; simpl in Hl.
  pose proof (Permutation_length (filter_Permutation isCorrect _ _ Hp)) as Hf.
  rewrite shuffledFour_correct in Hf.
  repeat (split; [assumption|]).
  split; [reflexivity|].
  unfold unknownAnswerFor; cbn [isCorrect].
  destruct (QuantifierType_eqb q_unknown (ctype c)) eqn:E.
  - apply QuantifierType_eqb_eq in E.
    repeat split; auto; try congruence.
    intros _; apply length_zero_iff_nil; exact Hf.
  - assert (ctype c <> q_unknown) as Hne
        by (intros Hu; rewrite Hu in E; discriminate).
    repeat split; auto; try congruence; try discriminate.
Qed.

Lemma unknown_slot_tells_witness :
  exists quiz,
    ApiQuiz.generateQuiz Sample.imports en counting = Some quiz
    /\ exists item c terms others last,
      fst (getRandomElement (quizData Sample.imports) counting) = Some item
      /\ drawnConclusion Sample.imports en counting = Some c
      /\ In c (correct item)
      /\ Permutation terms (termsOf Sample.imports en)
      /\ answers quiz = others ++ [last]
      /\ length others = 4
      /\ last = mkAnswer (fill (templatesOf Sample.imports en q_unknown)
                               (termMapOf terms (csubject c))
                               (termMapOf terms (cobject c)))
                         (QuantifierType_eqb q_unknown (ctype c))
      /\ (isCorrect last = true <-> ctype c = q_unknown)
      /\ (ctype c <> q_unknown ->
          length (filter isCorrect others) = 1 /\ isCorrect last = false)
      /\ (ctype c = q_unknown -> filter isCorrect others = []).
Proof.
  destruct (ApiQuiz.generateQuiz Sample.imports en counting)
    as [quiz|] eqn:E; [|vm_compute in E; discriminate E].
  exists quiz; split; [reflexivity|].
  apply (unknown_slot_tells Sample.imports en counting quiz).
  right; exact E.
Defined.

(** C6, for src/pages/api/quiz.ts: the [shuffle] of that file shuffles a
    copy, and [generateQuiz] drops what it returns; the terms of X, Y and Z
    are the first three of the vocabulary as it is listed, whatever the
    draws, and the premises and the Unknown answer are worded with them. *)
Theorem api_quiz_terms_not_shuffled :
  forall J lang g quiz c terms g',
    generateQuizFrom ApiQuiz.shuffle J lang g = Some (quiz, c, terms, g') ->
    terms = termsOf J lang
    /\ fst (getRandomElement (quizData J) g) <> None
    /\ (forall item,
           fst (getRandomElement (quizData J) g) = Some item ->
           baseSentences quiz
           = map (fun s => sentenceOf (templatesOf J lang)
                                      (termMapOf (termsOf J lang))
                                      (asConclusion s))
                 (statements item))
    /\ nth_error (answers quiz) 4
       = Some (unknownAnswerFor (templatesOf J lang) (termsOf J lang) c).
Proof.
  intros J lang g quiz c terms g' E.
  pose proof E as E'.
  apply (generateQuizFrom_inv _ ApiQuiz_shuffle_rearranges) in E'.
  destruct E' as (item & others & _ & _ & Ht & Hp & Ha & _).
  rewrite ApiQuiz_shuffle_passed in Ht; subst terms.
  split; [reflexivity|].
  assert (nth_error (answers quiz) 4
          = Some (unknownAnswerFor (templatesOf J lang) (termsOf J lang) c))
    as Hlast by (eapply shape_of_parts; eassumption).
  unfold generateQuizFrom in E.
  destruct (getRandomElement (quizData J) g) as [[it|] g1];
    [|discriminate E].
  cbv zeta in E.
  destruct (getRandomElement (correct it) _) as [[c0|] g2];
    [|discriminate E].
  injection E as <- _ _ _; cbn [fst].
  split; [discriminate|].
  split; [|exact Hlast].
  intros item' [= <-]; cbn [baseSentences].
  rewrite ApiQuiz_shuffle_passed; reflexivity.
Qed.

Lemma api_quiz_terms_not_shuffled_witness :
  exists quiz c terms g',
    generateQuizFrom ApiQuiz.shuffle Sample.imports en counting
    = Some (quiz, c, terms, g')
    /\ terms = termsOf Sample.imports en
    /\ fst (getRandomElement (quizData Sample.imports) counting) <> None
    /\ (forall item,
           fst (getRandomElement (quizData Sample.imports) counting)
           = Some item ->
           baseSentences quiz
           = map (fun s => sentenceOf (templatesOf Sample.imports en)
                                      (termMapOf (termsOf Sample.imports en))
                                      (asConclusion s))
                 (statements item))
    /\ nth_error (answers quiz) 4
       = Some (unknownAnswerFor (templatesOf Sample.imports en)
                                (termsOf Sample.imports en) c).
Proof.
  destruct (generateQuizFrom ApiQuiz.shuffle Sample.imports en counting)
    as [[[[quiz c] terms] g']|] eqn:E; [|vm_compute in E; discriminate E].
  exists quiz, c, terms, g'; split; [reflexivity|].
  exact (api_quiz_terms_not_shuffled Sample.imports en counting
                                     quiz c terms g' E).
Defined.

(** The two sibling generators do shuffle the terms: on the same draws the
    component reads its terms from the shuffled array, and the multi-answer
    generator renders its premises with shuffled terms. *)
Example component_shuffles_terms :
  exists quiz c g',
    generateQuizFrom QuizGenerator.shuffle Sample.imports en counting
    = Some (quiz, c, ["cats"; "fish"; "birds"; "dogs"], g')
    /\ baseSentences quiz = ["All cats are fish."; "All fish are birds."].
Proof. vm_compute; do 3 eexists; split; reflexivity. Qed.

Example multi_quiz_shuffles_terms :
  exists quiz r g',
    MultiQuiz.generateMultiQuizFrom Sample.imports 5 en counting
    = MultiQuiz.Returned (quiz, barbara, r) g'
    /\ MultiQuiz.baseSentences quiz
       = ["All birds are fish."; "All fish are dogs."].
Proof. vm_compute; do 3 eexists; split; reflexivity. Qed.

(** ** The rejection loop of the multi-answer generator *)

Lemma drawnAt_next (J : Imports) (g : Rng) (k : nat) :
  drawnAt J (advance 1 g) k = drawnAt J g (S k).
Proof. unfold drawnAt; rewrite advance_advance; reflexivity. Qed.

(** The loop returns the first template drawn that is valid, goes on while
    the draws select templates that are not, and throws only on the empty
    library. *)
Lemma drawItem_spec (J : Imports) (fuel : nat) :
  forall g,
    quizData J <> [] ->
    match MultiQuiz.drawItem J fuel g with
    | MultiQuiz.Returned item g' =>
        exists k, k < fuel /\ drawnAt J g k = Some item
                  /\ MultiQuiz.isValid item = true
                  /\ (forall i, i < k ->
                                exists it, drawnAt J g i = Some it
                                           /\ MultiQuiz.isValid it = false)
                  /\ g' = advance (S k) g
    | MultiQuiz.Running =>
        forall k, k < fuel ->
                  exists it, drawnAt J g k = Some it
                             /\ MultiQuiz.isValid it = false
    | MultiQuiz.Thrown => False
    end.
Proof.
  induction fuel as [|fuel IH]; intros g Hd; cbn [MultiQuiz.drawItem].
  - intros k Hk; lia.
  - destruct (getRandomElement_Some (quizData J) g Hd) as (item & E).
    pose proof (getRandomElement_rng (quizData J) g) as Hg.
    assert (drawnAt J g 0 = Some item) as H0
        by (unfold drawnAt; rewrite advance_0; exact E).
    destruct (getRandomElement (quizData J) g) as [oi g1].
    simpl in E, Hg; subst oi g1.
    destruct (MultiQuiz.isValid item) eqn:Hv; simpl.
    + exists 0; repeat split; auto; try lia.
    + specialize (IH (advance 1 g) Hd).
      destruct (MultiQuiz.drawItem J fuel (advance 1 g)) as [it g'| |].
      * destruct IH as (k & Hk & Hdk & Hvk & Hbefore & Hg').
        exists (S k); split; [lia|].
        split; [rewrite <- drawnAt_next; exact Hdk|].
        split; [exact Hvk|].
        split.
        -- intros [|i] Hi; [exists item; auto|].
           rewrite <- drawnAt_next; apply Hbefore; lia.
        -- rewrite Hg', advance_advance; reflexivity.
      * exact IH.
      * intros [|k] Hk; [exists item; auto|].
        rewrite <- drawnAt_next; apply IH; lia.
Qed.

Lemma generateMultiQuiz_outcome (J : Imports) (fuel : nat) (lang : Lang)
      (g : Rng) :
  match MultiQuiz.drawItem J fuel (loopEntry J lang g) with
  | MultiQuiz.Returned item _ =>
      exists quiz r g',
        MultiQuiz.generateMultiQuizFrom J fuel lang g
        = MultiQuiz.Returned (quiz, item, r) g'
        /\ MultiQuiz.generateMultiQuiz J fuel lang g
           = MultiQuiz.Returned quiz g'
  | MultiQuiz.Thrown =>
      MultiQuiz.generateMultiQuiz J fuel lang g = MultiQuiz.Thrown
  | MultiQuiz.Running =>
      MultiQuiz.generateMultiQuiz J fuel lang g = MultiQuiz.Running
  end.
Proof.
  unfold MultiQuiz.generateMultiQuiz, MultiQuiz.generateMultiQuizFrom,
    loopEntry, MultiQuiz.termsMap.
  cbv zeta.
  destruct (MultiQuiz.drawItem J fuel _) as [item g1| |]; try reflexivity.
  destruct (MultiQuiz.selectAnswers _ g1) as [[final r] g2].
  do 3 eexists; split; reflexivity.
Qed.

(** C8, as the code has it: the rejection loop has no bound on its rounds
    and no error for giving up.  On a library that is not empty the
    generator returns within [fuel] rounds exactly when one of the first
    [fuel] draws selects a template that is valid, it is still running
    after [fuel] rounds exactly when each of them selects a template that
    is not, and it never throws. *)
Theorem rejection_loop_unbounded :
  forall J lang g fuel,
    quizData J <> [] ->
    ((exists quiz g',
         MultiQuiz.generateMultiQuiz J fuel lang g
         = MultiQuiz.Returned quiz g')
     <-> exists k item,
        k < fuel /\ drawnAt J (loopEntry J lang g) k = Some item
        /\ MultiQuiz.isValid item = true)
    /\ (MultiQuiz.generateMultiQuiz J fuel lang g = MultiQuiz.Running
        <-> forall k, k < fuel ->
                      exists item,
                        drawnAt J (loopEntry J lang g) k = Some item
                        /\ MultiQuiz.isValid item = false)
    /\ MultiQuiz.generateMultiQuiz J fuel lang g <> MultiQuiz.Thrown.
Proof.
  intros J lang g fuel Hd.
  pose proof (drawItem_spec J fuel (loopEntry J lang g) Hd) as Hs.
  pose proof (generateMultiQuiz_outcome J fuel lang g) as Ho.
  destruct (MultiQuiz.drawItem J fuel (loopEntry J lang g))
    as [item g1| |]; [| contradiction |].
  - destruct Hs as (k & Hk & Hdk & Hvk & _ & _).
    destruct Ho as (quiz & r & g' & _ & Ho).
    split; [|split].
    + split; [intros _; exists k, item; auto | intros _; eauto].
    + split; [rewrite Ho; discriminate|].
      intros Hall; destruct (Hall k Hk) as (it & Hit & Hinv).
      congruence.
    + rewrite Ho; discriminate.
  - split; [|split].
    + split; [intros (quiz & g' & E); congruence|].
      intros (k & item & Hk & Hdk & Hvk).
      destruct (Hs k Hk) as (it & Hit & Hinv); congruence.
    + split; auto.
    + rewrite Ho; discriminate.
Qed.

Lemma rejection_loop_unbounded_witness :
  ((exists quiz g',
       MultiQuiz.generateMultiQuiz Sample.imports 5 en counting
       = MultiQuiz.Returned quiz g')
   <-> exists k item,
      k < 5 /\ drawnAt Sample.imports (loopEntry Sample.imports en counting) k
               = Some item
      /\ MultiQuiz.isValid item = true)
  /\ (MultiQuiz.generateMultiQuiz Sample.imports 5 en counting
      = MultiQuiz.Running
      <-> forall k, k < 5 ->
                    exists item,
                      drawnAt Sample.imports
                              (loopEntry Sample.imports en counting) k
                      = Some item
                      /\ MultiQuiz.isValid item = false)
  /\ MultiQuiz.generateMultiQuiz Sample.imports 5 en counting
     <> MultiQuiz.Thrown.
Proof.
  apply (rejection_loop_unbounded Sample.imports en counting 5).
  discriminate.
Defined.

(** C8 as stated fails: on a library whose one template is not valid the
    generator is still in its loop after any number of rounds; it neither
    returns nor throws. *)
Lemma rejection_loop_never_gives_up :
  ~ (exists fuel,
        MultiQuiz.generateMultiQuiz onlyParticulars fuel en counting
        <> MultiQuiz.Running).
Proof.
  intros (fuel & H); apply H; clear H.
  assert (forall g, MultiQuiz.drawItem onlyParticulars fuel g
                    = MultiQuiz.Running) as Hloop.
  { induction fuel as [|fuel IH]; intros g; [reflexivity|].
    cbn [MultiQuiz.drawItem].
    unfold getRandomElement, randomBelow; cbn [quizData onlyParticulars length].
    rewrite Nat.mod_1_r; cbn [nth_error].
    replace (MultiQuiz.isValid particulars) with false by reflexivity.
    apply IH. }
  pose proof (generateMultiQuiz_outcome onlyParticulars fuel en counting)
    as Ho.
  rewrite Hloop in Ho; exact Ho.
Qed.

(** ** The rejection predicate *)

Lemma isValid_spec (item : QuizItem) :
  MultiQuiz.isValid item = true
  <-> MultiQuiz.expandCorrectAnswers item <> []
      /\ ~ Forall (fun c => ctype c = q_unknown)
                  (MultiQuiz.expandCorrectAnswers item).
Proof.
  unfold MultiQuiz.isValid; cbv zeta.
  rewrite andb_true_iff, negb_true_iff, Nat.ltb_lt.
  assert (forall l : list Conclusion,
             forallb (fun c => QuantifierType_eqb (ctype c) q_unknown) l = true
             <-> Forall (fun c => ctype c = q_unknown) l) as Hall.
  { intros l; rewrite forallb_forall, Forall_forall.
    split; intros H x Hx; apply QuantifierType_eqb_eq, H, Hx. }
  split.
  - intros [Hlen Hf]; split.
    + intros E; rewrite E in Hlen; simpl in Hlen; lia.
    + rewrite <- Hall, Hf; discriminate.
  - intros [Hne Hf]; split.
    + destruct (MultiQuiz.expandCorrectAnswers item);
        [congruence | simpl; lia].
    + apply not_true_is_false; rewrite Hall; exact Hf.
Qed.

Lemma isValid_known (item : QuizItem) :
  MultiQuiz.isValid item = true ->
  exists c, In c (MultiQuiz.expandCorrectAnswers item)
            /\ ctype c <> q_unknown.
Proof.
  unfold MultiQuiz.isValid; cbv zeta.
  rewrite andb_true_iff, negb_true_iff; intros [_ H].
  induction (MultiQuiz.expandCorrectAnswers item) as [|c l IH];
    simpl in H; [discriminate|].
  destruct (QuantifierType_eqb (ctype c) q_unknown) eqn:E; simpl in H.
  - destruct (IH H) as (x & Hx & Hk); exists x; simpl; auto.
  - exists c; split; [left; reflexivity|].
    intros Hu; rewrite Hu in E; discriminate.
Qed.


(** What a returned multi-answer quiz is made of. *)
Lemma generateMultiQuizFrom_inv (J : Imports) (fuel : nat) (lang : Lang)
      (g : Rng) (quiz : MultiQuiz.MultiQuiz) (item : QuizItem)
      (repaired : bool) (g' : Rng) :
  MultiQuiz.generateMultiQuizFrom J fuel lang g
  = MultiQuiz.Returned (quiz, item, repaired) g' ->
  let t := templatesOf J lang in
  let tm := termMapOf (returned (MultiQuiz.shuffle (termsOf J lang) g)) in
  exists g1,
    MultiQuiz.drawItem J fuel (loopEntry J lang g)
    = MultiQuiz.Returned item g1
    /\ MultiQuiz.baseSentences quiz
       = map (fun s => sentenceOf t tm (asConclusion s)) (statements item)
    /\ MultiQuiz.selectAnswers (MultiQuiz.possibleAnswers t tm item) g1
       = (MultiQuiz.answers quiz, repaired, g').
Proof.
  unfold MultiQuiz.generateMultiQuizFrom, loopEntry, MultiQuiz.termsMap,
    MultiQuiz.templates.
  cbv zeta.
  destruct (MultiQuiz.drawItem J fuel _) as [it g1| |]; try discriminate.
  destruct (MultiQuiz.selectAnswers _ g1) as [[final r] g2] eqn:E.
  intros [= <- <- <- <-].
  exists g1; repeat split; auto.
Qed.




(** ** Selecting the answers of a multi-answer quiz *)

Lemma selectAnswers_inv (possible : list Answer) (g : Rng)
      (final : list (option Answer)) (repaired : bool) (g' : Rng) :
  MultiQuiz.selectAnswers possible g = (final, repaired, g') ->
  let answers := uniqueSentences (returned (MultiQuiz.shuffle possible g)) in
  let six := firstn 6 answers in
  (repaired = false /\ existsb isCorrect six = true /\ final = map Some six)
  \/ (repaired = true /\ existsb isCorrect six = false
      /\ exists g1,
        final = map Some (removelast six)
                ++ [nth_error (returned (MultiQuiz.shuffle
                                           (filter isCorrect answers) g1)) 0]).
Proof.
  unfold MultiQuiz.selectAnswers; cbv zeta.
  fold (uniqueSentences (returned (MultiQuiz.shuffle possible g))).
  destruct (existsb isCorrect
              (firstn 6 (uniqueSentences
                           (returned (MultiQuiz.shuffle possible g)))))
    eqn:E; cbn [negb].
  - intros [= <- <- <-]; left; auto.
  - rewrite MultiQuiz_shuffle_passed.
    intros [= <- <- <-]; right; repeat split; auto.
    eexists; reflexivity.
Qed.

Lemma removelast_incl {A} (l : list A) (a : A) :
  In a (removelast l) -> In a l.
Proof.
  induction l as [|x l IH]; simpl; [tauto|].
  destruct l as [|y l]; [intros []|].
  intros [->|H]; [left; reflexivity | right; apply IH, H].
Qed.

Lemma removelast_length {A} (l : list A) :
  length (removelast l) = length l - 1.
Proof.
  induction l as [|x l IH]; [reflexivity|].
  destruct l as [|y l]; [reflexivity|].
  change (removelast (x :: y :: l)) with (x :: removelast (y :: l)).
  simpl length in *; lia.
Qed.

Lemma existsb_false_forallb {A} (p : A -> bool) (l : list A) :
  existsb p l = false <-> forallb (fun a => negb (p a)) l = true.
Proof.
  induction l as [|x l IH]; simpl; [tauto|].
  rewrite orb_false_iff, andb_true_iff, negb_true_iff, IH; tauto.
Qed.

Lemma first_of_shuffled_filter (p : Answer -> bool) (l : list Answer)
      (g : Rng) (a : Answer) :
  nth_error (returned (MultiQuiz.shuffle (filter p l) g)) 0 = Some a ->
  p a = true /\ In a l.
Proof.
  intros H; apply nth_error_In in H.
  apply (Permutation_in _ (MultiQuiz_shuffle_rearranges _ _ g)) in H.
  apply filter_In in H; tauto.
Qed.

(** C7, as the code has it: when the repair branch runs, the answers
    delivered are the truncated answers without their last one, none of
    them correct, followed by the answer that was spliced in, which is
    correct when there is one: the call [shuffle(finalAnswers)] shuffles a
    copy and leaves [finalAnswers] as it is, so the correct answer is in
    the last place whatever the draws. *)
Theorem repaired_answer_stays_last :
  forall J fuel lang g quiz item g',
    MultiQuiz.generateMultiQuizFrom J fuel lang g
    = MultiQuiz.Returned (quiz, item, true) g' ->
    exists kept spliced,
      MultiQuiz.answers quiz = map Some kept ++ [spliced]
      /\ length kept <= 5
      /\ forallb (fun a => negb (isCorrect a)) kept = true
      /\ (forall a, spliced = Some a -> isCorrect a = true).
Proof.
  intros J fuel lang g quiz item g' E.
  apply generateMultiQuizFrom_inv in E; destruct E as (g1 & _ & _ & E).
  apply selectAnswers_inv in E; cbv zeta in E.
  destruct E as [(Hr & _)|(_ & Hnone & g2 & ->)]; [discriminate|].
  eexists _, _; split; [reflexivity|].
  split; [|split].
  - rewrite removelast_length.
    pose proof (firstn_le_length 6
      (uniqueSentences
         (returned (MultiQuiz.shuffle
                      (MultiQuiz.possibleAnswers
                         (templatesOf J lang)
                         (termMapOf (returned (MultiQuiz.shuffle
                                                 (termsOf J lang) g)))
                         item) g1)))).
    lia.
  - apply existsb_false_forallb in Hnone.
    rewrite forallb_forall in Hnone |- *.
    intros a Ha; apply Hnone, removelast_incl, Ha.
  - intros a Ha; eapply first_of_shuffled_filter; exact Ha.
Qed.

Lemma repaired_answer_stays_last_witness :
  exists quiz item g',
    MultiQuiz.generateMultiQuizFrom Sample.imports 5 en counting
    = MultiQuiz.Returned (quiz, item, true) g'
    /\ exists kept spliced,
      MultiQuiz.answers quiz = map Some kept ++ [spliced]
      /\ length kept <= 5
      /\ forallb (fun a => negb (isCorrect a)) kept = true
      /\ (forall a, spliced = Some a -> isCorrect a = true).
Proof.
  destruct (MultiQuiz.generateMultiQuizFrom Sample.imports 5 en counting)
    as [[[quiz item] repaired] g'| |] eqn:E;
    [| vm_compute in E; discriminate E | vm_compute in E; discriminate E].
  assert (repaired = true) as ->
      by (vm_compute in E; injection E as _ _ <- _; reflexivity).
  exists quiz, item, g'; split; [reflexivity|].
  exact (repaired_answer_stays_last Sample.imports 5 en counting
                                    quiz item g' E).
Defined.

(** On the sample imports and the draws 0, 1, 2, ... the repair branch
    runs; the one correct answer is the sixth of the six. *)
Example repaired_quiz_on_sample :
  exists g',
    MultiQuiz.generateMultiQuiz Sample.imports 5 en counting
    = MultiQuiz.Returned
        (MultiQuiz.mkMultiQuiz
           ["All birds are fish."; "All fish are dogs."]
           [Some (mkAnswer "No birds are fish." false);
            Some (mkAnswer "Some dogs are birds." false);
            Some (mkAnswer "Some fish are not birds." false);
            Some (mkAnswer "Some birds are not fish." false);
            Some (mkAnswer "All dogs are birds." false);
            Some (mkAnswer "Some dogs are fish." true)])
        g'.
Proof. vm_compute; eexists; reflexivity. Qed.

(** ** Sentences that can be read back *)

Lemma noDupStrings_NoDup (l : list string) :
  noDupStrings l = true <-> NoDup l.
Proof.
  induction l as [|s l IH]; simpl.
  - split; [constructor | reflexivity].
  - rewrite andb_true_iff, negb_true_iff, IH, <- not_true_iff_false,
      existsb_eqb_In.
    split; [intros [H1 H2]; constructor; assumption|].
    intros H; inversion H; subst; auto.
Qed.

Lemma picks_In {A} (l1 l2 : list A) (a : A) :
  In (a, l1 ++ l2) (picks (l1 ++ a :: l2)).
Proof.
  induction l1 as [|x l1 IH]; simpl; [left; reflexivity|].
  right; apply in_map_iff; exists (a, l1 ++ l2); auto.
Qed.

Lemma picks_Permutation {A} (l rest : list A) (a : A) :
  Permutation (a :: rest) l ->
  exists r, In (a, r) (picks l) /\ Permutation rest r.
Proof.
  intros Hp.
  assert (In a l) as Hin
      by (apply (Permutation_in _ Hp); left; reflexivity).
  apply in_split in Hin; destruct Hin as (l1 & l2 & ->).
  exists (l1 ++ l2); split; [apply picks_In|].
  apply Permutation_cons_app_inv with (a := a); exact Hp.
Qed.

(** The first three entries of a rearranged list are one of the ways to
    take three entries of the list. *)
Lemma arrangements3_first_three {A} (l rest : list A) (a b c : A) :
  Permutation (a :: b :: c :: rest) l -> In [a; b; c] (arrangements3 l).
Proof.
  intros Hp; unfold arrangements3.
  destruct (picks_Permutation _ _ _ Hp) as (r1 & H1 & Hp1).
  destruct (picks_Permutation _ _ _ Hp1) as (r2 & H2 & Hp2).
  destruct (picks_Permutation _ _ _ Hp2) as (r3 & H3 & _).
  apply in_flat_map; exists (a, r1); split; [exact H1|].
  apply in_flat_map; exists (b, r2); split; [exact H2|].
  apply in_map_iff; exists (c, r3); split; [reflexivity | exact H3].
Qed.

Lemma termMapOf_first_three (a b c : string) (rest : list string) (v : Var) :
  termMapOf (a :: b :: c :: rest) v = termMapOf [a; b; c] v.
Proof. destruct v; reflexivity. Qed.

(** For the terms a shuffle of the vocabulary leaves, the sentences of the
    candidate statements are pairwise different. *)
Lemma shuffled_terms_distinct (t : QuantifierType -> string)
      (vocabulary terms : list string) :
  3 <= length vocabulary ->
  sentencesDistinct t vocabulary = true ->
  Permutation terms vocabulary ->
  NoDup (map (sentenceOf t (termMapOf terms)) allCandidates).
Proof.
  intros Hlen Hd Hp.
  pose proof (Permutation_length Hp) as Hl.
  destruct terms as [|a [|b [|c rest]]]; simpl in Hl; try lia.
  unfold sentencesDistinct in Hd; rewrite forallb_forall in Hd.
  specialize (Hd _ (arrangements3_first_three _ _ _ _ _ Hp)).
  apply noDupStrings_NoDup in Hd.
  erewrite map_ext; [exact Hd|].
  intros x; unfold sentenceOf; rewrite !termMapOf_first_three; reflexivity.
Qed.


(** Leaving entries out keeps the renderings of the others different. *)
Lemma NoDup_map_filter {A B} (render : A -> B) (keep : A -> bool) :
  forall items : list A,
    NoDup (map render items) -> NoDup (map render (filter keep items)).
Proof.
  intros items; induction items as [|a l IH]; simpl; intros Hn;
    [constructor|].
  inversion Hn as [|? ? Hout Hn']; subst.
  destruct (keep a); simpl; [constructor|]; auto.
  intros Hin; apply Hout.
  apply in_map_iff in Hin; destruct Hin as (x & <- & Hx).
  apply in_map; apply filter_In in Hx; tauto.
Qed.

(** ** Answers whose sentences differ are all kept *)

Lemma findIndex_nth {A} (f : A -> string) (l : list A) :
  NoDup (map f l) ->
  forall i a, nth_error l i = Some a ->
              findIndex (fun b => String.eqb (f b) (f a)) l = Some i.
Proof.
  induction l as [|b l IH]; intros Hn [|i] a H; simpl in *;
    try discriminate.
  - injection H as ->; rewrite String.eqb_refl; reflexivity.
  - inversion Hn as [|? ? Hout Hn']; subst.
    destruct (String.eqb_spec (f b) (f a)) as [E|_].
    + exfalso; apply Hout; rewrite E.
      apply in_map, (nth_error_In _ _ H).
    + rewrite (IH Hn' i a H); reflexivity.
Qed.

Lemma combine_seq_nth {A} (l : list A) :
  forall s a i, In (a, i) (combine l (seq s (length l))) ->
                s <= i /\ nth_error l (i - s) = Some a.
Proof.
  induction l as [|x l IH]; intros s a i; simpl; [tauto|].
  intros [[= -> ->]|H].
  - rewrite Nat.sub_diag; auto.
  - apply IH in H; destruct H as [Hle Hn].
    split; [lia|].
    replace (i - s) with (S (i - S s)) by lia; exact Hn.
Qed.

Lemma map_fst_combine_seq {A} (l : list A) :
  forall s, map fst (combine l (seq s (length l))) = l.
Proof.
  induction l as [|x l IH]; intros s; simpl; [reflexivity|].
  rewrite IH; reflexivity.
Qed.

Lemma filter_all {A} (p : A -> bool) (l : list A) :
  (forall a, In a l -> p a = true) -> filter p l = l.
Proof.
  induction l as [|x l IH]; simpl; intros H; [reflexivity|].
  rewrite (H x) by auto; rewrite IH by auto; reflexivity.
Qed.

Lemma uniqueSentences_all (arr : list Answer) :
  NoDup (map sentence arr) -> uniqueSentences arr = arr.
Proof.
  intros Hn; unfold uniqueSentences, filteri.
  rewrite filter_all; [apply map_fst_combine_seq|].
  intros [a i] Hin; cbn [fst snd].
  apply combine_seq_nth in Hin; destruct Hin as [_ Hnth].
  rewrite Nat.sub_0_r in Hnth.
  rewrite (findIndex_nth sentence arr Hn i a Hnth).
  apply Nat.eqb_refl.
Qed.

(** ** A valid template has a correct candidate *)





(** ** The multi-answer quiz *)

Lemma generateMultiQuiz_from (J : Imports) (fuel : nat) (lang : Lang)
      (g : Rng) (quiz : MultiQuiz.MultiQuiz) (g' : Rng) :
  MultiQuiz.generateMultiQuiz J fuel lang g = MultiQuiz.Returned quiz g' ->
  exists item repaired,
    MultiQuiz.generateMultiQuizFrom J fuel lang g
    = MultiQuiz.Returned (quiz, item, repaired) g'.
Proof.
  unfold MultiQuiz.generateMultiQuiz.
  destruct (MultiQuiz.generateMultiQuizFrom J fuel lang g)
    as [[[q item] r] g1| |]; try discriminate.
  intros [= <- <-]; eauto.
Qed.







(** * Further properties of the sources *)

(** ** [shuffle] and [getRandomElement] *)

Lemma shuffleLoop_0 {A} (a : list A) (g : Rng) :
  shuffleLoop 0 a g = (a, g).
Proof. reflexivity. Qed.

(** X1: each of the three [shuffle]s returns a rearrangement of the array it
    is given, and the three return the same one on the same draws; the one
    of the component hands its argument back shuffled, the two of the API
    routes leave their argument as it was. *)
Theorem shuffle_rearranges_its_argument :
  forall (A : Type) (l : list A) (g : Rng),
    Permutation (returned (QuizGenerator.shuffle l g)) l
    /\ length (returned (QuizGenerator.shuffle l g)) = length l
    /\ returned (ApiQuiz.shuffle l g) = returned (QuizGenerator.shuffle l g)
    /\ returned (MultiQuiz.shuffle l g) = returned (QuizGenerator.shuffle l g)
    /\ passed (QuizGenerator.shuffle l g)
       = returned (QuizGenerator.shuffle l g)
    /\ passed (ApiQuiz.shuffle l g) = l
    /\ passed (MultiQuiz.shuffle l g) = l.
Proof.
  intros A l g.
  pose proof (QuizGenerator_shuffle_rearranges A l g) as Hp.
  split; [exact Hp|].
  split; [apply Permutation_length, Hp|].
  unfold QuizGenerator.shuffle, ApiQuiz.shuffle, MultiQuiz.shuffle.
  destruct (shuffleLoop (length l - 1) l g); repeat split.
Qed.

(** X2: a [shuffle] of an array of [n] entries reads [n - 1] draws; an
    array that is empty or has one entry is returned as it is, and no draw
    is read for it. *)
Theorem shuffle_reads_one_draw_less_than_entries :
  forall (A : Type) (l : list A) (x : A) (g : Rng),
    rngAfter (QuizGenerator.shuffle l g) = advance (length l - 1) g
    /\ rngAfter (ApiQuiz.shuffle l g) = advance (length l - 1) g
    /\ rngAfter (MultiQuiz.shuffle l g) = advance (length l - 1) g
    /\ QuizGenerator.shuffle [x] g = mkShuffled [x] [x] g
    /\ MultiQuiz.shuffle [x] g = mkShuffled [x] [x] g
    /\ MultiQuiz.shuffle (@nil A) g = mkShuffled [] [] g.
Proof.
  intros A l x g.
  pose proof (shuffleLoop_rng (length l - 1) l g) as Hr.
  unfold QuizGenerator.shuffle, ApiQuiz.shuffle, MultiQuiz.shuffle.
  destruct (shuffleLoop (length l - 1) l g) as [l' g'] eqn:E.
  simpl in Hr; subst g'; cbn [rngAfter].
  repeat split.
Qed.

Lemma update_length {A} (i : nat) (v : A) (l : list A) :
  length (update i v l) = length l.
Proof.
  revert i; induction l as [|a l IH]; intros [|i]; simpl; auto.
Qed.

Lemma update_app_l {A} (i : nat) (v : A) (l back : list A) :
  i < length l -> update i v (l ++ back) = update i v l ++ back.
Proof.
  revert i; induction l as [|a l IH]; intros [|i] H; simpl in *;
    try lia; auto.
  rewrite IH by lia; reflexivity.
Qed.

Lemma swap_app_l {A} (i j : nat) (l back : list A) :
  i < length l -> j < length l -> swap i j (l ++ back) = swap i j l ++ back.
Proof.
  intros Hi Hj; unfold swap.
  rewrite !nth_error_app1 by assumption.
  destruct (nth_error l i) as [x|] eqn:Ei;
    [|apply nth_error_None in Ei; lia].
  destruct (nth_error l j) as [y|] eqn:Ej;
    [|apply nth_error_None in Ej; lia].
  rewrite update_app_l by assumption.
  rewrite update_app_l by (rewrite update_length; assumption).
  reflexivity.
Qed.

Lemma nth_error_swap {A} (i j : nat) (l : list A) :
  i < length l -> j < length l ->
  nth_error (swap i j l) i = nth_error l j.
Proof.
  intros Hi Hj; unfold swap.
  destruct (nth_error l i) as [x|] eqn:Ei;
    [|apply nth_error_None in Ei; lia].
  destruct (nth_error l j) as [y|] eqn:Ej;
    [|apply nth_error_None in Ej; lia].
  rewrite nth_error_update by (rewrite update_length; assumption).
  destruct (Nat.eqb_spec j i) as [->|Hne]; [congruence|].
  rewrite nth_error_update by assumption.
  rewrite Nat.eqb_refl; reflexivity.
Qed.

Lemma randomBelow_small (n j : nat) (d : nat -> nat) (c : nat) :
  j < n /\ d c = j -> randomBelow n (mkRng d c) = (j, mkRng d (S c)).
Proof.
  intros [Hlt Hd]; unfold randomBelow; cbn [draws cursor].
  destruct n as [|n]; [lia|].
  rewrite Hd, Nat.mod_small by lia; reflexivity.
Qed.

(** The loop entered at the last index of [front] can leave any
    rearrangement of [front], for draws that are read off it. *)
Lemma shuffleLoop_reaches {A} (i : nat) :
  forall front target back : list A,
    length front = S i -> Permutation front target ->
    exists ds : list nat,
      length ds = i
      /\ forall d c,
        (forall k, k < i -> d (c + k) = nth k ds 0) ->
        fst (shuffleLoop i (front ++ back) (mkRng d c)) = target ++ back.
Proof.
  induction i as [|i IH]; intros front target back Hlen Hp.
  - exists []; split; [reflexivity|]; intros d c _; simpl.
    destruct front as [|x [|y front]]; simpl in Hlen; try lia.
    apply Permutation_length_1_inv in Hp; subst; reflexivity.
  - assert (target <> []) as Hne
        by (intros ->; apply Permutation_length in Hp; simpl in Hp; lia).
    destruct (exists_last Hne) as (target' & z & ->).
    assert (In z front) as Hz
        by (apply (Permutation_in _ (Permutation_sym Hp)), in_app_iff;
            right; left; reflexivity).
    apply In_nth_error in Hz; destruct Hz as (j & Hj).
    assert (j < length front) as Hjlt
        by (apply nth_error_Some; congruence).
    assert (S i < length front) as Hilt by lia.
    pose proof (nth_error_swap (S i) j front Hilt Hjlt) as Hlast.
    pose proof (swap_Permutation (S i) j front) as Hsw.
    assert (swap (S i) j front <> []) as Hsne
        by (intros E; apply Permutation_length in Hsw; rewrite E in Hsw;
            simpl in Hsw; lia).
    destruct (exists_last Hsne) as (front' & y & Efront).
    assert (length front' = S i) as Hlen'.
    { apply Permutation_length in Hsw; rewrite Efront, length_app in Hsw.
      simpl in Hsw; lia. }
    assert (y = z) as ->.
    { rewrite Efront, nth_error_app2, Hlen', Nat.sub_diag, Hj in Hlast
        by lia.
      simpl in Hlast; congruence. }
    assert (Permutation front' target') as Hp'.
    { apply Permutation_app_inv_r with (l := [z]).
      rewrite <- Efront; eapply perm_trans; eassumption. }
    destruct (IH front' target' (z :: back) Hlen' Hp') as (ds & Hds & Hrun).
    exists (j :: ds); split; [simpl; lia|].
    intros d c Hd; cbn [shuffleLoop].
    rewrite (randomBelow_small (S i + 1) j d c) by
        (split; [lia|];
         rewrite <- (Nat.add_0_r c); apply (Hd 0); lia).
    rewrite swap_app_l by lia.
    rewrite Efront, <- !app_assoc; simpl app.
    apply Hrun; intros k Hk.
    specialize (Hd (S k) ltac:(lia)); simpl in Hd.
    rewrite <- Hd; f_equal; lia.
Qed.

(** X3: every rearrangement of an array is returned by [shuffle] for some
    draws. *)
Theorem shuffle_reaches_every_rearrangement :
  forall (A : Type) (l target : list A),
    Permutation l target ->
    exists g : Rng,
      returned (MultiQuiz.shuffle l g) = target
      /\ returned (ApiQuiz.shuffle l g) = target
      /\ returned (QuizGenerator.shuffle l g) = target.
Proof.
  intros A l target Hp.
  assert (exists g, fst (shuffleLoop (length l - 1) l g) = target)
    as (g & Hg).
  { destruct l as [|x l].
    - apply Permutation_nil in Hp; subst.
      exists (mkRng (fun _ => 0) 0); reflexivity.
    - destruct (shuffleLoop_reaches (length l) (x :: l) target []
                                    eq_refl Hp) as (ds & _ & Hrun).
      exists (mkRng (fun k => nth k ds 0) 0).
      replace (length (x :: l) - 1) with (length l) by (simpl; lia).
      specialize (Hrun (fun k => nth k ds 0) 0 (fun k _ => eq_refl)).
      rewrite !app_nil_r in Hrun; exact Hrun. }
  exists g.
  unfold MultiQuiz.shuffle, ApiQuiz.shuffle, QuizGenerator.shuffle.
  destruct (shuffleLoop (length l - 1) l g); simpl in *; auto.
Qed.

Lemma shuffle_reaches_every_rearrangement_witness :
  exists g : Rng,
    returned (MultiQuiz.shuffle [1; 2; 3] g) = [3; 1; 2]
    /\ returned (ApiQuiz.shuffle [1; 2; 3] g) = [3; 1; 2]
    /\ returned (QuizGenerator.shuffle [1; 2; 3] g) = [3; 1; 2].
Proof.
  apply (shuffle_reaches_every_rearrangement nat [1; 2; 3] [3; 1; 2]).
  apply Permutation_sym.
  apply (Permutation_cons_app [1; 2] [] 3); reflexivity.
Defined.

(** X4: [getRandomElement] gives [undefined] for the empty array and an
    entry of the array otherwise, reads one draw, and gives each entry for
    some draw. *)
Theorem getRandomElement_picks_an_entry :
  forall (A : Type) (l : list A) (g : Rng),
    snd (getRandomElement l g) = advance 1 g
    /\ (l = [] <-> fst (getRandomElement l g) = None)
    /\ (forall a, fst (getRandomElement l g) = Some a -> In a l)
    /\ (forall a, In a l ->
                  exists g', fst (getRandomElement l g') = Some a).
Proof.
  intros A l g.
  split; [apply getRandomElement_rng|].
  split; [|split].
  - split.
    + intros ->; reflexivity.
    + intros H; destruct l as [|x l]; [reflexivity|].
      destruct (getRandomElement_Some (x :: l) g) as (a & Ha);
        [discriminate | congruence].
  - intros a; apply getRandomElement_In.
  - intros a Ha; apply In_nth_error in Ha; destruct Ha as (i & Hi).
    assert (i < length l) as Hlt by (apply nth_error_Some; congruence).
    exists (mkRng (fun _ => i) 0).
    unfold getRandomElement, randomBelow; cbn [fst draws cursor].
    destruct (length l) as [|n] eqn:E; [lia|].
    rewrite Nat.mod_small by lia; exact Hi.
Qed.

(** ** [replace] and the filling of a sentence pattern *)

Lemma string_app_nil_r (s : string) : (s ++ "")%string = s.
Proof. induction s as [|c s IH]; simpl; [reflexivity | rewrite IH; auto]. Qed.

Lemma string_app_assoc (a b c : string) :
  ((a ++ b) ++ c)%string = (a ++ b ++ c)%string.
Proof. induction a as [|x a IH]; simpl; [reflexivity | rewrite IH; auto]. Qed.

Lemma string_app_length (a b : string) :
  String.length (a ++ b) = String.length a + String.length b.
Proof. induction a as [|x a IH]; simpl; [reflexivity | rewrite IH; auto]. Qed.

Lemma prefix_app (p s : string) :
  String.prefix p s = true <-> exists b, s = (p ++ b)%string.
Proof.
  revert s; induction p as [|c p IH]; intros s; simpl.
  - split; [intros _; exists s; reflexivity | intros _; destruct s; reflexivity].
  - destruct s as [|x s]; [split; [discriminate | intros (b & H); discriminate]|].
    cbn [String.prefix]; destruct (ascii_dec c x) as [->|Hne].
    + rewrite IH; split; intros (b & H); exists b; congruence.
    + split; [discriminate | intros (b & H); congruence].
Qed.

Lemma skip_app (p b : string) : skip (String.length p) (p ++ b) = b.
Proof. induction p as [|c p IH]; simpl; [destruct b; reflexivity | exact IH]. Qed.

Lemma skip_app_eq (p b s : string) :
  s = (p ++ b)%string -> skip (String.length p) s = b.
Proof. intros ->; apply skip_app. Qed.

Lemma string_app_inv_head (p b b' : string) :
  (p ++ b)%string = (p ++ b')%string -> b = b'.
Proof. induction p as [|c p IH]; simpl; [auto | intros [= H]; auto]. Qed.

Lemma string_app_same_length (a a' b b' : string) :
  (a ++ b)%string = (a' ++ b')%string -> String.length a = String.length a' ->
  a = a' /\ b = b'.
Proof.
  revert a'; induction a as [|c a IH]; intros [|c' a'] H Hl; simpl in *;
    try discriminate; auto.
  injection H as -> H; destruct (IH a' H) as [-> ->]; auto.
Qed.

(** What [splitAtFirst] finds is the occurrence that starts first. *)
Lemma splitAtFirst_Some (pat : string) :
  forall s a b,
    splitAtFirst pat s = Some (a, b) ->
    s = (a ++ pat ++ b)%string
    /\ forall a' b', s = (a' ++ pat ++ b')%string ->
                     String.length a <= String.length a'.
Proof.
  induction s as [|c s IH]; intros a b; cbn [splitAtFirst].
  - destruct (String.prefix pat "") eqn:E; [|discriminate].
    intros [= <- <-]; apply prefix_app in E; destruct E as (b & E).
    rewrite skip_app_eq with (p := pat) (b := b) by exact E.
    split; [exact E | intros; simpl; lia].
  - destruct (String.prefix pat (String c s)) eqn:E.
    + intros [= <- <-]; apply prefix_app in E; destruct E as (b & E).
      rewrite skip_app_eq with (p := pat) (b := b) by exact E.
      split; [exact E | intros; simpl; lia].
    + destruct (splitAtFirst pat s) as [[a0 b0]|] eqn:Es; [|discriminate].
      intros [= <- <-]; destruct (IH a0 b0 eq_refl) as [Hs Hmin].
      split; [simpl; congruence|].
      intros [|x a'] b' H; simpl in H.
      * assert (String.prefix pat (String c s) = true) as E'
            by (apply prefix_app; exists b'; exact H).
        congruence.
      * injection H as _ H; simpl; apply le_n_S, (Hmin a' b' H).
Qed.

Lemma splitAtFirst_None (pat : string) :
  forall s, splitAtFirst pat s = None ->
            forall a b, s <> (a ++ pat ++ b)%string.
Proof.
  induction s as [|c s IH]; cbn [splitAtFirst].
  - destruct (String.prefix pat "") eqn:E; [discriminate|].
    intros _ [|x a] b H; [|discriminate].
    assert (String.prefix pat "" = true) as E'
        by (apply prefix_app; exists b; exact H).
    congruence.
  - destruct (String.prefix pat (String c s)) eqn:E; [discriminate|].
    destruct (splitAtFirst pat s) as [[a0 b0]|] eqn:Es; [discriminate|].
    intros _ [|x a] b H; simpl in H.
    + assert (String.prefix pat (String c s) = true) as E'
          by (apply prefix_app; exists b; exact H).
      congruence.
    + injection H as _ H; exact (IH eq_refl a b H).
Qed.

Lemma replace_unfold_Some (pat rep s a b : string) :
  splitAtFirst pat s = Some (a, b) ->
  replace pat rep s = (a ++ getSubstitution pat a b rep ++ b)%string.
Proof. unfold replace; intros ->; reflexivity. Qed.

Lemma splitAtFirst_first (pat s a b : string) :
  s = (a ++ pat ++ b)%string ->
  (forall a' b', s = (a' ++ pat ++ b')%string ->
                 String.length a <= String.length a') ->
  splitAtFirst pat s = Some (a, b).
Proof.
  intros Hs Hmin.
  destruct (splitAtFirst pat s) as [[a1 b1]|] eqn:E.
  - destruct (splitAtFirst_Some pat s a1 b1 E) as [Hs1 Hmin1].
    assert (String.length a = String.length a1) as Hl
        by (apply Nat.le_antisymm; [eapply Hmin | eapply Hmin1]; eassumption).
    rewrite Hs in Hs1.
    destruct (string_app_same_length _ _ _ _ Hs1 Hl) as [-> H].
    apply string_app_inv_head in H; subst; reflexivity.
  - exfalso; exact (splitAtFirst_None pat s E a b Hs).
Qed.

Lemma getSubstitution_plain (matched before after rep : string) :
  hasChar "$" rep = false -> getSubstitution matched before after rep = rep.
Proof.
  induction rep as [|c rep IH]; simpl; [reflexivity|].
  destruct (Ascii.eqb c "$"); simpl; [discriminate|].
  intros H; rewrite IH by exact H; reflexivity.
Qed.

Lemma hasChar_app (c : ascii) (a b : string) :
  hasChar c (a ++ b) = hasChar c a || hasChar c b.
Proof.
  induction a as [|x a IH]; simpl; [reflexivity|].
  rewrite IH, orb_assoc; reflexivity.
Qed.

(** An occurrence of a pattern after a text without the first character of
    the pattern is the first one. *)
Lemma first_after_plain_text (c : ascii) (p a b : string) :
  hasChar c a = false ->
  forall a' b',
    (a ++ String c p ++ b)%string = (a' ++ String c p ++ b')%string ->
    String.length a <= String.length a'.
Proof.
  induction a as [|x a IH]; simpl; intros H a' b' E; [lia|].
  apply orb_false_iff in H; destruct H as [Hx Ha].
  destruct a' as [|x' a']; simpl in E.
  - injection E as -> _; rewrite Ascii.eqb_refl in Hx; discriminate.
  - injection E as _ E; simpl; apply le_n_S, (IH Ha a' b' E).
Qed.

Lemma replace_plain (c : ascii) (p rep a b : string) :
  hasChar c a = false -> hasChar "$" rep = false ->
  replace (String c p) rep (a ++ String c p ++ b) = (a ++ rep ++ b)%string.
Proof.
  intros Ha Hrep.
  rewrite (replace_unfold_Some (String c p) rep _ a b).
  - rewrite getSubstitution_plain by exact Hrep; reflexivity.
  - apply splitAtFirst_first; [reflexivity|].
    apply first_after_plain_text; exact Ha.
Qed.

(** X5: [replace] leaves a string in which the pattern does not occur as it
    is. *)
Theorem replace_without_occurrence :
  forall pat rep s,
    (forall a b, s <> (a ++ pat ++ b)%string) -> replace pat rep s = s.
Proof.
  intros pat rep s Habsent; unfold replace.
  destruct (splitAtFirst pat s) as [[a b]|] eqn:E; [|reflexivity].
  destruct (splitAtFirst_Some pat s a b E) as [Hs _].
  exfalso; exact (Habsent a b Hs).
Qed.

Lemma replace_without_occurrence_witness :
  replace "{sub}" "cats" "{su}b" = "{su}b".
Proof.
  apply (replace_without_occurrence "{sub}" "cats" "{su}b").
  intros a b H.
  repeat (destruct a as [|? a]; simpl in H; try discriminate H;
          injection H as <- H).
Defined.

(** X6: [replace] rewrites the occurrence of the pattern that starts first,
    and that one only: the text before it and all the text after it stay,
    and the replacement is read as a template in which [$&] is the pattern,
    [$`] the text before and [$'] the text after. *)
Theorem replace_rewrites_first_occurrence :
  forall pat rep s a b,
    s = (a ++ pat ++ b)%string ->
    (forall a' b', s = (a' ++ pat ++ b')%string ->
                   String.length a <= String.length a') ->
    replace pat rep s = (a ++ getSubstitution pat a b rep ++ b)%string
    /\ replace pat "$&" s = s
    /\ replace pat "$$" s = (a ++ "$" ++ b)%string
    /\ replace pat "$`" s = (a ++ a ++ b)%string
    /\ replace pat "$'" s = (a ++ b ++ b)%string.
Proof.
  intros pat rep s a b Hs Hmin.
  pose proof (splitAtFirst_first pat s a b Hs Hmin) as E.
  rewrite !(replace_unfold_Some pat _ s a b E); cbn [getSubstitution Ascii.eqb].
  cbn; rewrite !string_app_nil_r.
  repeat split; auto.
Qed.

Lemma replace_rewrites_first_occurrence_witness :
  replace "{obj}" "fish" "{obj} or {obj}"
  = ("" ++ getSubstitution "{obj}" "" " or {obj}" "fish" ++ " or {obj}")%string
  /\ replace "{obj}" "$&" "{obj} or {obj}" = "{obj} or {obj}"
  /\ replace "{obj}" "$$" "{obj} or {obj}" = ("" ++ "$" ++ " or {obj}")%string
  /\ replace "{obj}" "$`" "{obj} or {obj}" = ("" ++ "" ++ " or {obj}")%string
  /\ replace "{obj}" "$'" "{obj} or {obj}"
     = ("" ++ " or {obj}" ++ " or {obj}")%string.
Proof.
  apply (replace_rewrites_first_occurrence
           "{obj}" "fish" "{obj} or {obj}" "" " or {obj}").
  - reflexivity.
  - intros a' b' _; simpl; lia.
Defined.

Lemma no_occurrence_without_first_char (c : ascii) (p s : string) :
  hasChar c s = false ->
  forall a b, s <> (a ++ String c p ++ b)%string.
Proof.
  intros H a b ->.
  rewrite hasChar_app in H; simpl in H.
  rewrite Ascii.eqb_refl, orb_true_r in H; discriminate.
Qed.

Lemma replace_self (pat s : string) : replace pat "$&" s = s.
Proof.
  unfold replace.
  destruct (splitAtFirst pat s) as [[a b]|] eqn:E; [|reflexivity].
  destruct (splitAtFirst_Some pat s a b E) as [Hs _].
  cbn; rewrite string_app_nil_r; symmetry; exact Hs.
Qed.

(** X7: a pattern of the form a{sub}b{obj}c, with no brace in a and b, is
    filled as a, the subject term, b, the object term, c, when the terms
    have no dollar sign and the subject term no brace. *)
Theorem fill_puts_terms_in_place :
  forall a b c sub obj,
    hasChar "{" a = false -> hasChar "{" b = false ->
    hasChar "{" sub = false ->
    hasChar "$" sub = false -> hasChar "$" obj = false ->
    fill (a ++ "{sub}" ++ b ++ "{obj}" ++ c) sub obj
    = (a ++ sub ++ b ++ obj ++ c)%string.
Proof.
  intros a b c sub obj Ha Hb Hsub Hds Hdo; unfold fill.
  rewrite (replace_plain "{" "sub}" sub a (b ++ "{obj}" ++ c) Ha Hds).
  rewrite <- !string_app_assoc.
  rewrite (string_app_assoc ((a ++ sub) ++ b) "{obj}" c).
  rewrite (replace_plain "{" "obj}" obj ((a ++ sub) ++ b) c);
    [rewrite !string_app_assoc; reflexivity | | exact Hdo].
  rewrite !hasChar_app, Ha, Hb, Hsub; reflexivity.
Qed.

Lemma fill_puts_terms_in_place_witness :
  fill ("Some " ++ "{sub}" ++ " are not " ++ "{obj}" ++ ".") "cats" "dogs"
  = ("Some " ++ "cats" ++ " are not " ++ "dogs" ++ ".")%string.
Proof.
  apply (fill_puts_terms_in_place "Some " " are not " "." "cats" "dogs");
    reflexivity.
Defined.

(** X8: the terms are read as replacement templates, not as plain text: a
    term [$&] stands for the placeholder it replaces, so filling any
    pattern with it gives the pattern back; and a pattern without a brace
    has no placeholder and is returned as it is, whatever the terms. *)
Theorem fill_reads_terms_as_templates :
  forall pattern sub obj,
    fill pattern "$&" "$&" = pattern
    /\ (hasChar "{" pattern = false -> fill pattern sub obj = pattern).
Proof.
  intros pattern sub obj; unfold fill; split.
  - rewrite !replace_self; reflexivity.
  - intros H.
    assert (replace "{sub}" sub pattern = pattern) as ->.
    { unfold replace.
      destruct (splitAtFirst "{sub}" pattern) as [[x y]|] eqn:E;
        [|reflexivity].
      destruct (splitAtFirst_Some _ _ _ _ E) as [Hs _].
      exfalso; exact (no_occurrence_without_first_char _ _ _ H x y Hs). }
    unfold replace.
    destruct (splitAtFirst "{obj}" pattern) as [[x y]|] eqn:E;
      [|reflexivity].
    destruct (splitAtFirst_Some _ _ _ _ E) as [Hs _].
    exfalso; exact (no_occurrence_without_first_char _ _ _ H x y Hs).
Qed.

(** ** More on the expansion and the labels *)

Lemma licensed_kinds (p : Statement) (c : Conclusion) :
  In c (licensed p) ->
  stype p <> s_some_none
  /\ (ctype c = q_some \/ ctype c = q_none)
  /\ ((csubject c = sobject p /\ cobject c = ssubject p)
      \/ (stype p = s_all /\ csubject c = ssubject p /\ cobject c = sobject p)).
Proof.
  destruct p as [[] a b]; simpl; intros H;
    repeat (destruct H as [<-|H]; [simpl; repeat split; auto; discriminate|]);
    contradiction.
Qed.

Lemma licensed_nonempty (p : Statement) :
  stype p <> s_some_none ->
  In (backwards p) (licensed p) /\ ctype (backwards p) <> q_unknown.
Proof.
  destruct p as [[] a b]; simpl; intros H; try congruence;
    split; auto; discriminate.
Qed.

Lemma isValid_iff (item : QuizItem) :
  MultiQuiz.isValid item = true
  <-> (exists c, In c (correct item) /\ ctype c <> q_unknown)
      \/ stype (statement1 item) <> s_some_none
      \/ stype (statement2 item) <> s_some_none.
Proof.
  split.
  - intros H; destruct (isValid_known item H) as (e & He & Hk).
    apply expand_In in He; destruct He as [He|[He|He]].
    + left; exists e; auto.
    + right; left; apply (licensed_kinds _ _ He).
    + right; right; apply (licensed_kinds _ _ He).
  - intros H.
    assert (exists e, In e (MultiQuiz.expandCorrectAnswers item)
                      /\ ctype e <> q_unknown) as (e & He & Hk).
    { destruct H as [(c & Hc & Hk)|[H|H]].
      - exists c; split; [apply expand_In; auto | exact Hk].
      - destruct (licensed_nonempty _ H) as [Hin Hk].
        exists (backwards (statement1 item)); split;
          [apply expand_In; auto | exact Hk].
      - destruct (licensed_nonempty _ H) as [Hin Hk].
        exists (backwards (statement2 item)); split;
          [apply expand_In; auto | exact Hk]. }
    apply isValid_spec; split.
    + intros E; rewrite E in He; contradiction.
    + intros Hall; rewrite Forall_forall in Hall; exact (Hk (Hall e He)).
Qed.

(** X9: the templates the multi-answer generator resamples are exactly
    those with two SomeNot premises and no canonical conclusion of a kind
    other than unknown. *)
Theorem rejected_templates :
  forall item,
    MultiQuiz.isValid item = false
    <-> stype (statement1 item) = s_some_none
        /\ stype (statement2 item) = s_some_none
        /\ forall c, In c (correct item) -> ctype c = q_unknown.
Proof.
  intros item; rewrite <- not_true_iff_false, isValid_iff; split.
  - intros H; split; [|split].
    + destruct (stype (statement1 item)) eqn:E; auto;
        exfalso; apply H; right; left; discriminate.
    + destruct (stype (statement2 item)) eqn:E; auto;
        exfalso; apply H; right; right; discriminate.
    + intros c Hc; destruct (ctype c) eqn:E; auto;
        exfalso; apply H; left; exists c; split; auto; congruence.
  - intros (H1 & H2 & Hc) [(c & Hin & Hk)|[H|H]]; auto.
Qed.

(** X10: the expansion keeps every canonical conclusion and adds only
    conclusions of kind Some or None, each on the pair of a premise read
    backwards, or forwards for an All premise; it adds four at most. *)
Theorem expansion_adds_converses_only :
  forall item,
    incl (correct item) (MultiQuiz.expandCorrectAnswers item)
    /\ (forall c,
           In c (MultiQuiz.expandCorrectAnswers item) ->
           In c (correct item)
           \/ ((ctype c = q_some \/ ctype c = q_none)
               /\ exists p,
                  In p (statements item)
                  /\ ((csubject c = sobject p /\ cobject c = ssubject p)
                      \/ (stype p = s_all /\ csubject c = ssubject p
                          /\ cobject c = sobject p))))
    /\ length (MultiQuiz.expandCorrectAnswers item)
       <= length (correct item) + 4.
Proof.
  intros item; split; [|split].
  - intros c Hc; apply expand_In; auto.
  - intros c Hc; apply expand_In in Hc; destruct Hc as [Hc|[Hc|Hc]];
      [left; exact Hc | right | right];
      destruct (licensed_kinds _ _ Hc) as (_ & Hk & Hpair);
      (split; [exact Hk|]).
    + exists (statement1 item); split; [left; reflexivity | exact Hpair].
    + exists (statement2 item); split;
        [right; left; reflexivity | exact Hpair].
  - eapply Nat.le_trans.
    + apply NoDup_incl_length; [apply expand_NoDup|].
      instantiate (1 := MultiQuiz.derivedOf item).
      intros c Hc; apply expand_In in Hc.
      rewrite derivedOf_app, !in_app_iff; tauto.
    + rewrite derivedOf_app, !length_app.
      destruct (statement1 item) as [[] ? ?], (statement2 item) as [[] ? ?];
        simpl; lia.
Qed.

(** X11: the order of the two premises does not change the conclusions of
    the expansion, nor whether the template is valid. *)
Theorem expansion_ignores_premise_order :
  forall p1 p2 conclusions,
    Permutation
      (MultiQuiz.expandCorrectAnswers (mkQuizItem p1 p2 conclusions))
      (MultiQuiz.expandCorrectAnswers (mkQuizItem p2 p1 conclusions))
    /\ MultiQuiz.isValid (mkQuizItem p1 p2 conclusions)
       = MultiQuiz.isValid (mkQuizItem p2 p1 conclusions).
Proof.
  intros p1 p2 cs; split.
  - apply NoDup_Permutation; try apply expand_NoDup.
    intros c; rewrite !expand_In; simpl; tauto.
  - apply eq_iff_eq_true; rewrite !isValid_iff; simpl; tauto.
Qed.

(** X12: a Some candidate and the Some candidate on the reversed pair always
    carry the same label; a candidate of another kind is labelled correct
    only when its own triple is in the expansion. *)
Theorem some_labels_come_in_pairs :
  forall expansion a b c,
    MultiQuiz.isCorrectLabel expansion (mkConclusion q_some a b)
    = MultiQuiz.isCorrectLabel expansion (mkConclusion q_some b a)
    /\ (ctype c <> q_some ->
        MultiQuiz.isCorrectLabel expansion c
        = existsb (Conclusion_eqb c) expansion).
Proof.
  intros expansion a b c; split.
  - apply eq_iff_eq_true; rewrite !isCorrectLabel_spec; simpl; tauto.
  - intros Hk; apply eq_iff_eq_true.
    rewrite isCorrectLabel_spec, existsb_exists; split.
    + intros [H|[H _]]; [|contradiction].
      exists c; split; [exact H | apply Conclusion_eqb_eq; reflexivity].
    + intros (x & Hx & E); apply Conclusion_eqb_eq in E; subst; auto.
Qed.

(** ** The candidate pool and the answers taken from it *)

Lemma allCandidates_NoDup : NoDup allCandidates.
Proof.
  apply (NoDup_map_inv conclusionKey), noDupStrings_NoDup.
  vm_compute; reflexivity.
Qed.

Lemma asConclusion_key (p : Statement) :
  conclusionKey (asConclusion p) = statementKey p.
Proof. reflexivity. Qed.

Lemma candidates_not_premises (item : QuizItem) (c : Conclusion) :
  In c (candidates item)
  <-> ctype c <> q_unknown /\ csubject c <> cobject c
      /\ c <> asConclusion (statement1 item)
      /\ c <> asConclusion (statement2 item).
Proof.
  rewrite candidates_In; cbn [statements map In].
  rewrite <- !asConclusion_key; split.
  - intros (Hk & Hv & Hn); repeat split; auto; intros ->; apply Hn; auto.
  - intros (Hk & Hv & H1 & H2); repeat split; auto.
    intros [E|[E|[]]]; apply conclusionKey_inj in E; congruence.
Qed.

Lemma candidates_length (item : QuizItem) :
  22 <= length (candidates item) <= 24.
Proof.
  rewrite candidates_filter.
  set (p := fun c => negb (existsb (String.eqb (conclusionKey c))
                                   (map statementKey (statements item)))).
  pose proof (filter_length p allCandidates) as Hsum.
  change (length allCandidates) with 24 in Hsum.
  assert (length (filter (fun x => negb (p x)) allCandidates) <= 2) as Hout.
  { change 2 with (length [asConclusion (statement1 item);
                           asConclusion (statement2 item)]).
    apply NoDup_incl_length; [apply NoDup_filter, allCandidates_NoDup|].
    intros c Hc; apply filter_In in Hc; destruct Hc as [_ Hc].
    unfold p in Hc; rewrite negb_involutive, existsb_eqb_In in Hc.
    cbn [statements map In] in Hc; rewrite <- !asConclusion_key in Hc.
    destruct Hc as [E|[E|[]]]; apply conclusionKey_inj in E; subst;
      simpl; auto. }
  lia.
Qed.

(** X13: the pool of candidate answers has every statement of a kind other
    than unknown on two different variables, but the two premises, each
    once: between 22 and 24 answers. *)
Theorem candidate_pool :
  forall t tm item,
    MultiQuiz.possibleAnswers t tm item
    = map (answerOf t tm item) (candidates item)
    /\ NoDup (candidates item)
    /\ (forall c,
           In c (candidates item)
           <-> ctype c <> q_unknown /\ csubject c <> cobject c
               /\ c <> asConclusion (statement1 item)
               /\ c <> asConclusion (statement2 item))
    /\ 22 <= length (MultiQuiz.possibleAnswers t tm item) <= 24.
Proof.
  intros t tm item.
  split; [apply possibleAnswers_map|].
  split; [rewrite candidates_filter; apply NoDup_filter, allCandidates_NoDup|].
  split; [apply candidates_not_premises|].
  rewrite possibleAnswers_map, length_map; apply candidates_length.
Qed.

Lemma uniqueSentences_incl (arr : list Answer) (a : Answer) :
  In a (uniqueSentences arr) -> In a arr.
Proof.
  unfold uniqueSentences, filteri; intros H.
  apply in_map_iff in H; destruct H as ([b i] & <- & H).
  apply filter_In in H; destruct H as [H _].
  apply in_combine_l in H; exact H.
Qed.

(** X14: with a vocabulary of three terms or more and sentence patterns
    under which different statements read differently, a multi-answer
    quiz has six answers, neither more nor fewer, and two base
    sentences. *)
Theorem multi_answer_quiz_has_six_answers :
  forall J fuel lang g quiz g',
    3 <= length (termsOf J lang) ->
    sentencesDistinct (templatesOf J lang) (termsOf J lang) = true ->
    MultiQuiz.generateMultiQuiz J fuel lang g = MultiQuiz.Returned quiz g' ->
    length (MultiQuiz.answers quiz) = 6
    /\ length (MultiQuiz.baseSentences quiz) = 2.
Proof.
  intros J fuel lang g quiz g' Hlen Hdist E.
  destruct (generateMultiQuiz_from _ _ _ _ _ _ E) as (item & repaired & EF).
  apply generateMultiQuizFrom_inv in EF; cbv zeta in EF.
  destruct EF as (g1 & _ & Hbase & Hsel).
  split; [|rewrite Hbase; reflexivity].
  set (t := templatesOf J lang) in *.
  set (tm := termMapOf (returned (MultiQuiz.shuffle (termsOf J lang) g)))
    in *.
  assert (NoDup (map (sentenceOf t tm) allCandidates)) as Hnd
      by (apply (shuffled_terms_distinct t (termsOf J lang)); auto;
          apply MultiQuiz_shuffle_rearranges).
  pose proof (candidates_length item) as Hpool.
  rewrite possibleAnswers_map in Hsel.
  set (possible := map (answerOf t tm item) (candidates item)) in *.
  set (shuffled := returned (MultiQuiz.shuffle possible g1)) in *.
  assert (Permutation shuffled possible) as Hperm
      by apply MultiQuiz_shuffle_rearranges.
  assert (uniqueSentences shuffled = shuffled) as Huniq.
  { apply uniqueSentences_all.
    eapply Permutation_NoDup;
      [apply Permutation_map, Permutation_sym, Hperm|].
    unfold possible; rewrite map_map; cbn [answerOf sentence].
    rewrite candidates_filter; apply NoDup_map_filter, Hnd. }
  assert (length (firstn 6 shuffled) = 6) as Hsix.
  { rewrite length_firstn, (Permutation_length Hperm).
    unfold possible; rewrite length_map; lia. }
  apply selectAnswers_inv in Hsel; cbv zeta in Hsel.
  fold shuffled in Hsel; rewrite Huniq in Hsel.
  destruct Hsel as [(_ & _ & ->)|(_ & _ & g2 & ->)].
  - rewrite length_map; exact Hsix.
  - rewrite length_app, length_map, removelast_length, Hsix; reflexivity.
Qed.

Lemma multi_answer_quiz_has_six_answers_witness :
  exists quiz g',
    MultiQuiz.generateMultiQuiz Sample.imports 5 de twos
    = MultiQuiz.Returned quiz g'
    /\ length (MultiQuiz.answers quiz) = 6
    /\ length (MultiQuiz.baseSentences quiz) = 2.
Proof.
  destruct (MultiQuiz.generateMultiQuiz Sample.imports 5 de twos)
    as [quiz g'| |] eqn:E;
    [| vm_compute in E; discriminate E | vm_compute in E; discriminate E].
  exists quiz, g'; split; [reflexivity|].
  apply (multi_answer_quiz_has_six_answers Sample.imports 5 de twos quiz g').
  - simpl; lia.
  - vm_compute; reflexivity.
  - exact E.
Defined.

(** X15: when no answer of the pool is correct, the repair branch runs and
    pushes [correct[0]] of an empty array: the answers delivered are
    answers of the pool, all incorrect, followed by [undefined]. *)
Theorem no_correct_candidate_gives_undefined :
  forall possible g final repaired g',
    (forall a, In a possible -> isCorrect a = false) ->
    MultiQuiz.selectAnswers possible g = (final, repaired, g') ->
    repaired = true
    /\ exists kept,
      final = map Some kept ++ [None]
      /\ length kept <= 5
      /\ forall a, In a kept -> In a possible /\ isCorrect a = false.
Proof.
  intros possible g final repaired g' Hnone E.
  apply selectAnswers_inv in E; cbv zeta in E.
  set (shuffled := returned (MultiQuiz.shuffle possible g)) in *.
  assert (forall a, In a (uniqueSentences shuffled) -> In a possible)
    as Hsub.
  { intros a Ha; apply uniqueSentences_incl in Ha.
    apply (Permutation_in _ (MultiQuiz_shuffle_rearranges _ possible g)).
    exact Ha. }
  assert (forall a, In a (firstn 6 (uniqueSentences shuffled)) ->
                    In a possible) as Hsix.
  { intros a Ha; apply Hsub.
    rewrite <- (firstn_skipn 6 (uniqueSentences shuffled)).
    apply in_app_iff; left; exact Ha. }
  destruct E as [(_ & Hsome & _)|(-> & _ & g2 & ->)].
  - apply existsb_exists in Hsome; destruct Hsome as (a & Ha & Hc).
    rewrite (Hnone a (Hsix a Ha)) in Hc; discriminate.
  - split; [reflexivity|].
    exists (removelast (firstn 6 (uniqueSentences shuffled))).
    assert (filter isCorrect (uniqueSentences shuffled) = []) as ->.
    { apply (proj1 (length_zero_iff_nil _)).
      destruct (filter isCorrect (uniqueSentences shuffled)) as [|a l] eqn:F;
        [reflexivity|].
      assert (In a (filter isCorrect (uniqueSentences shuffled))) as Ha
          by (rewrite F; left; reflexivity).
      apply filter_In in Ha; destruct Ha as [Ha Hc].
      rewrite (Hnone a (Hsub a Ha)) in Hc; discriminate. }
    split; [reflexivity|]; split.
    + rewrite removelast_length.
      pose proof (firstn_le_length 6 (uniqueSentences shuffled)); lia.
    + intros a Ha; apply removelast_incl in Ha.
      split; [apply Hsix, Ha | apply Hnone, Hsix, Ha].
Qed.

Lemma no_correct_candidate_gives_undefined_witness :
  exists final repaired g',
    MultiQuiz.selectAnswers [mkAnswer "No cats are dogs." false] counting
    = (final, repaired, g')
    /\ repaired = true
    /\ exists kept,
      final = map Some kept ++ [None]
      /\ length kept <= 5
      /\ forall a, In a kept ->
                   In a [mkAnswer "No cats are dogs." false]
                   /\ isCorrect a = false.
Proof.
  destruct (MultiQuiz.selectAnswers [mkAnswer "No cats are dogs." false]
                                    counting)
    as [[final repaired] g'] eqn:E.
  exists final, repaired, g'; split; [reflexivity|].
  apply (no_correct_candidate_gives_undefined
           [mkAnswer "No cats are dogs." false] counting final repaired g');
    [|exact E].
  intros a [<-|[]]; reflexivity.
Defined.

(** A template with two Some premises on one pair is valid, yet none of
    its candidates is correct: the quiz ends with [undefined]. *)
Example quiz_with_undefined_answer :
  exists kept g',
    MultiQuiz.generateMultiQuiz
      (mkImports [mkQuizItem (mkStatement s_some X Y) (mkStatement s_some Y X)
                             [mkConclusion q_unknown X Z]]
                 Sample.templates Sample.terms)
      1 en counting
    = MultiQuiz.Returned
        (MultiQuiz.mkMultiQuiz ["Some birds are fish."; "Some fish are birds."]
                               (map Some kept ++ [None])) g'
    /\ length kept = 5.
Proof. vm_compute; eexists (_ :: _ :: _ :: _ :: _ :: nil), _; split; reflexivity. Qed.

Lemma findIndex_app_before {A} (p : A -> bool) (pre l : list A) :
  (exists b, In b pre /\ p b = true) ->
  exists k, findIndex p (pre ++ l) = Some k /\ k < length pre.
Proof.
  induction pre as [|x pre IH]; simpl; intros (b & Hb & Hp); [contradiction|].
  destruct (p x) eqn:Hx; [exists 0; split; [reflexivity | lia]|].
  destruct Hb as [->|Hb]; [congruence|].
  destruct IH as (k & -> & Hk); [exists b; auto|].
  exists (S k); split; [reflexivity | lia].
Qed.

Lemma findIndex_app_here {A} (p : A -> bool) (pre l : list A) (a : A) :
  (forall b, In b pre -> p b = false) -> p a = true ->
  findIndex p (pre ++ a :: l) = Some (length pre).
Proof.
  induction pre as [|x pre IH]; simpl; intros Hpre Ha.
  - rewrite Ha; reflexivity.
  - rewrite (Hpre x) by auto; rewrite IH by auto; reflexivity.
Qed.

Lemma keepFirst_from (l : list Answer) :
  forall (pre : list Answer) (seen : list string),
    (forall s, In s seen <-> In s (map sentence pre)) ->
    map fst
        (filter (fun ai =>
                   match findIndex
                           (fun b => String.eqb (sentence b)
                                                (sentence (fst ai)))
                           (pre ++ l) with
                   | Some k => Nat.eqb k (snd ai)
                   | None => false
                   end)
                (combine l (seq (length pre) (length l))))
    = keepFirst seen l.
Proof.
  induction l as [|a l IH]; intros pre seen Hseen; [reflexivity|].
  cbn [length seq combine filter fst snd keepFirst].
  assert (((pre ++ [a]) ++ l) = pre ++ a :: l) as Happ
      by (rewrite <- app_assoc; reflexivity).
  assert (length (pre ++ [a]) = S (length pre)) as Hlen
      by (rewrite length_app; simpl; lia).
  destruct (existsb (String.eqb (sentence a)) seen) eqn:Hex.
  - apply existsb_eqb_In, Hseen, in_map_iff in Hex.
    destruct Hex as (b & Hb & Hin).
    destruct (findIndex_app_before
                (fun b => String.eqb (sentence b) (sentence a)) pre (a :: l))
      as (k & -> & Hk);
      [exists b; split; [exact Hin | apply String.eqb_eq, Hb]|].
    replace (Nat.eqb k (length pre)) with false
      by (symmetry; apply Nat.eqb_neq; lia).
    rewrite <- Happ, <- Hlen; apply IH.
    intros s; rewrite Hseen, map_app, in_app_iff; simpl.
    split; [auto | intros [H|[<-|[]]]; auto].
    rewrite <- Hb; apply in_map, Hin.
  - rewrite findIndex_app_here; [| |apply String.eqb_refl].
    + rewrite Nat.eqb_refl; cbn [map fst]; f_equal.
      rewrite <- Happ, <- Hlen; apply IH.
      intros s; rewrite map_app, in_app_iff; simpl.
      rewrite Hseen; tauto.
    + intros b Hb; apply not_true_iff_false; intros E.
      apply String.eqb_eq in E.
      assert (existsb (String.eqb (sentence a)) seen = true) as Hex'
          by (apply existsb_eqb_In, Hseen; rewrite <- E;
              apply in_map, Hb).
      congruence.
Qed.

Lemma keepFirst_spec (l : list Answer) :
  forall seen,
    NoDup (map sentence (keepFirst seen l))
    /\ (forall a, In a (keepFirst seen l) ->
                  In a l /\ ~ In (sentence a) seen)
    /\ (forall a, In a l ->
                  In (sentence a) seen
                  \/ In (sentence a) (map sentence (keepFirst seen l))).
Proof.
  induction l as [|x l IH]; intros seen; simpl.
  - repeat split; try constructor; contradiction.
  - destruct (existsb (String.eqb (sentence x)) seen) eqn:Hex.
    + destruct (IH seen) as (Hn & Hin & Hall).
      split; [exact Hn|]; split.
      * intros a Ha; destruct (Hin a Ha); auto.
      * intros a [<-|Ha]; [left; apply existsb_eqb_In, Hex | auto].
    + destruct (IH (sentence x :: seen)) as (Hn & Hin & Hall).
      assert (~ In (sentence x) seen) as Hx
          by (rewrite <- existsb_eqb_In, Hex; discriminate).
      split; [|split].
      * simpl; constructor; [|exact Hn].
        intros H; apply in_map_iff in H; destruct H as (b & Hb & Hbin).
        destruct (Hin b Hbin) as [_ Hb']; apply Hb'; left; auto.
      * intros a [<-|Ha]; [auto|].
        destruct (Hin a Ha) as [H1 H2]; split; [auto|].
        intros H; apply H2; right; exact H.
      * intros a [<-|Ha]; [right; left; reflexivity|].
        destruct (Hall a Ha) as [[<-|H]|H]; simpl; auto.
Qed.

(** X16: the filter on [findIndex] keeps, in their order, the answers whose
    sentence no earlier answer has: the sentences kept are pairwise
    different, every answer kept is one of the array, and every sentence of
    the array is kept once. *)
Theorem uniqueSentences_keeps_first_of_each :
  forall arr,
    uniqueSentences arr = keepFirst [] arr
    /\ NoDup (map sentence (uniqueSentences arr))
    /\ incl (uniqueSentences arr) arr
    /\ (forall a, In a arr ->
                  In (sentence a) (map sentence (uniqueSentences arr)))
    /\ uniqueSentences (uniqueSentences arr) = uniqueSentences arr.
Proof.
  intros arr.
  assert (uniqueSentences arr = keepFirst [] arr) as E.
  { unfold uniqueSentences, filteri.
    apply (keepFirst_from arr [] []); intros s; simpl; tauto. }
  destruct (keepFirst_spec arr []) as (Hn & Hin & Hall).
  rewrite <- E in Hn, Hin, Hall.
  split; [exact E|]; split; [exact Hn|]; split; [|split].
  - intros a Ha; apply (Hin a Ha).
  - intros a Ha; destruct (Hall a Ha) as [[]|H]; exact H.
  - apply uniqueSentences_all, Hn.
Qed.

(** ** When the generators throw *)

Lemma drawItem_empty (J : Imports) (fuel : nat) (g : Rng) :
  quizData J = [] -> MultiQuiz.drawItem J (S fuel) g = MultiQuiz.Thrown.
Proof.
  intros E; cbn [MultiQuiz.drawItem]; unfold getRandomElement.
  rewrite E; reflexivity.
Qed.

(** X17: the multi-answer generator throws exactly when the library is
    empty ([isValid] reads a property of [undefined] in the first round);
    a library that is not empty never makes it throw. *)
Theorem multi_answer_throws_on_empty_library :
  forall J fuel lang g,
    MultiQuiz.generateMultiQuiz J fuel lang g = MultiQuiz.Thrown
    <-> quizData J = [] /\ 0 < fuel.
Proof.
  intros J fuel lang g.
  pose proof (generateMultiQuiz_outcome J fuel lang g) as Ho.
  split.
  - intros E; destruct (quizData J) as [|x l] eqn:Hd.
    + split; [reflexivity|].
      destruct fuel; [|lia].
      cbn [MultiQuiz.drawItem] in Ho; congruence.
    + exfalso.
      pose proof (drawItem_spec J fuel (loopEntry J lang g)) as Hs.
      rewrite Hd in Hs; specialize (Hs ltac:(discriminate)).
      destruct (MultiQuiz.drawItem J fuel (loopEntry J lang g));
        [destruct Ho as (q & r & g' & _ & Ho) | contradiction |];
        congruence.
  - intros [Hd Hf]; destruct fuel as [|fuel]; [lia|].
    rewrite (drawItem_empty J fuel _ Hd) in Ho; exact Ho.
Qed.

Lemma getRandomElement_nil {A} (g : Rng) :
  fst (getRandomElement (@nil A) g) = None.
Proof. reflexivity. Qed.

Lemma generateQuizFrom_None
      (shuffle : forall A : Type, list A -> Rng -> Shuffled A)
      (J : Imports) (lang : Lang) (g : Rng) :
  generateQuizFrom shuffle J lang g = None <-> nothingToAsk J g.
Proof.
  unfold generateQuizFrom, nothingToAsk.
  destruct (quizData J) as [|x l] eqn:Hd.
  - cbn; tauto.
  - destruct (getRandomElement_Some (x :: l) g) as (item & E);
      [discriminate|].
    destruct (getRandomElement (x :: l) g) as [oi g1]; simpl in E; subst oi.
    cbv zeta.
    match goal with
    | |- context [getRandomElement (correct item) ?r] => set (g2 := r)
    end.
    destruct (correct item) as [|c cs] eqn:Hc.
    + cbn; split; [intros _; right; exists item; auto | reflexivity].
    + destruct (getRandomElement_Some (c :: cs) g2) as (c0 & E2);
        [discriminate|].
      destruct (getRandomElement (c :: cs) g2) as [oc g3].
      simpl in E2; subst oc.
      split; [discriminate|].
      intros [H|(it & Hit & Hnil)]; [discriminate|].
      cbn [fst] in Hit; injection Hit as <-; congruence.
Qed.

(** X18: each of the two single-answer generators throws exactly when the
    library is empty or the template drawn has no canonical conclusion;
    otherwise it returns a quiz. *)
Theorem single_answer_throws_without_conclusion :
  forall J lang g,
    (QuizGenerator.generateQuiz J lang g = None <-> nothingToAsk J g)
    /\ (ApiQuiz.generateQuiz J lang g = None <-> nothingToAsk J g).
Proof.
  intros J lang g.
  unfold QuizGenerator.generateQuiz, ApiQuiz.generateQuiz, generateQuizWith.
  rewrite <- (generateQuizFrom_None QuizGenerator.shuffle J lang g) at 1.
  rewrite <- (generateQuizFrom_None ApiQuiz.shuffle J lang g).
  split.
  - destruct (generateQuizFrom QuizGenerator.shuffle J lang g)
      as [[[[q c] t] g']|]; split; congruence.
  - destruct (generateQuizFrom ApiQuiz.shuffle J lang g)
      as [[[[q c] t] g']|]; split; congruence.
Qed.

(** X19: the five answers of a single-answer quiz are, in some order, the
    five sentence patterns filled with the terms of the subject and the
    object of the conclusion drawn, the one of the kind of that conclusion
    marked correct; the base sentences are the two premises of a template
    of the library, filled with the same terms. *)
Theorem single_answer_quiz_contents :
  forall J lang g quiz c terms g',
    generateQuizFrom QuizGenerator.shuffle J lang g
    = Some (quiz, c, terms, g')
    \/ generateQuizFrom ApiQuiz.shuffle J lang g
       = Some (quiz, c, terms, g') ->
    Permutation
      (answers quiz)
      (map (fun type =>
              mkAnswer (fill (templatesOf J lang type)
                             (termMapOf terms (csubject c))
                             (termMapOf terms (cobject c)))
                       (QuantifierType_eqb type (ctype c)))
           allTypes)
    /\ exists item,
        In item (quizData J) /\ In c (correct item)
        /\ baseSentences quiz
           = [fill (templatesOf J lang (widen (stype (statement1 item))))
                   (termMapOf terms (ssubject (statement1 item)))
                   (termMapOf terms (sobject (statement1 item)));
              fill (templatesOf J lang (widen (stype (statement2 item))))
                   (termMapOf terms (ssubject (statement2 item)))
                   (termMapOf terms (sobject (statement2 item)))].
Proof.
  intros J lang g quiz c terms g' H.
  assert (exists item others,
             In item (quizData J) /\ In c (correct item)
             /\ Permutation others
                            (shuffledFour (templatesOf J lang) terms c)
             /\ answers quiz
                = others ++ [unknownAnswerFor (templatesOf J lang) terms c]
             /\ baseSentences quiz
                = map (fun s => sentenceOf (templatesOf J lang)
                                           (termMapOf terms)
                                           (asConclusion s))
                      (statements item))
    as (item & others & Hin & Hc & Hp & Ha & Hb).
  { destruct H as [E|E].
    - destruct (generateQuizFrom_inv _ QuizGenerator_shuffle_rearranges
                                     _ _ _ _ _ _ _ E)
        as (item & others & ? & ? & _ & ? & ? & ?);
        exists item, others; auto.
    - destruct (generateQuizFrom_inv _ ApiQuiz_shuffle_rearranges
                                     _ _ _ _ _ _ _ E)
        as (item & others & ? & ? & _ & ? & ? & ?);
        exists item, others; auto. }
  split.
  - rewrite Ha.
    change (map _ allTypes)
      with (shuffledFour (templatesOf J lang) terms c
            ++ [unknownAnswerFor (templatesOf J lang) terms c]).
    apply Permutation_app_tail, Hp.
  - exists item; repeat split; auto.
Qed.

Lemma single_answer_quiz_contents_witness :
  exists quiz c terms g',
    generateQuizFrom QuizGenerator.shuffle Sample.imports de counting
    = Some (quiz, c, terms, g')
    /\ Permutation
         (answers quiz)
         (map (fun type =>
                 mkAnswer (fill (templatesOf Sample.imports de type)
                                (termMapOf terms (csubject c))
                                (termMapOf terms (cobject c)))
                          (QuantifierType_eqb type (ctype c)))
              allTypes)
    /\ exists item,
        In item (quizData Sample.imports) /\ In c (correct item)
        /\ baseSentences quiz
           = [fill (templatesOf Sample.imports de
                                (widen (stype (statement1 item))))
                   (termMapOf terms (ssubject (statement1 item)))
                   (termMapOf terms (sobject (statement1 item)));
              fill (templatesOf Sample.imports de
                                (widen (stype (statement2 item))))
                   (termMapOf terms (ssubject (statement2 item)))
                   (termMapOf terms (sobject (statement2 item)))].
Proof.
  destruct (generateQuizFrom QuizGenerator.shuffle Sample.imports de counting)
    as [[[[quiz c] terms] g']|] eqn:E; [|vm_compute in E; discriminate E].
  exists quiz, c, terms, g'; split; [reflexivity|].
  apply (single_answer_quiz_contents Sample.imports de counting
                                     quiz c terms g').
  left; exact E.
Defined.

(** ** The two single-answer generators side by side *)

Lemma update_map {A B} (f : A -> B) (i : nat) (v : A) (l : list A) :
  update i (f v) (map f l) = map f (update i v l).
Proof.
  revert i; induction l as [|a l IH]; intros [|i]; simpl; auto.
  rewrite IH; reflexivity.
Qed.

Lemma swap_map {A B} (f : A -> B) (i j : nat) (l : list A) :
  swap i j (map f l) = map f (swap i j l).
Proof.
  unfold swap; rewrite !nth_error_map.
  destruct (nth_error l i) as [x|]; [|reflexivity].
  destruct (nth_error l j) as [y|]; [|reflexivity].
  simpl; rewrite !update_map; reflexivity.
Qed.

(** The swaps of a shuffle depend on the draws, not on the entries. *)
Lemma shuffleLoop_map {A B} (f : A -> B) (i : nat) :
  forall (a : list A) (g : Rng),
    shuffleLoop i (map f a) g
    = (map f (fst (shuffleLoop i a g)), snd (shuffleLoop i a g)).
Proof.
  induction i as [|i IH]; intros a g; [reflexivity|].
  cbn [shuffleLoop].
  destruct (randomBelow (S i + 1) g) as [j g1].
  rewrite swap_map; apply IH.
Qed.

Lemma shuffles_agree {A} (l : list A) (g : Rng) :
  returned (ApiQuiz.shuffle l g) = returned (QuizGenerator.shuffle l g)
  /\ rngAfter (ApiQuiz.shuffle l g) = rngAfter (QuizGenerator.shuffle l g)
  /\ passed (ApiQuiz.shuffle l g) = l
  /\ passed (QuizGenerator.shuffle l g)
     = returned (QuizGenerator.shuffle l g).
Proof.
  unfold ApiQuiz.shuffle, QuizGenerator.shuffle.
  destruct (shuffleLoop (length l - 1) l g); repeat split.
Qed.

Lemma shuffled_flags {A} (f : A -> bool) (l l' : list A) (g : Rng) :
  map f l = map f l' ->
  map f (returned (QuizGenerator.shuffle l g))
  = map f (returned (QuizGenerator.shuffle l' g))
  /\ rngAfter (QuizGenerator.shuffle l g)
     = rngAfter (QuizGenerator.shuffle l' g).
Proof.
  intros E.
  assert (length l = length l') as Hl
      by (rewrite <- (length_map f l), E, length_map; reflexivity).
  pose proof (shuffleLoop_map f (length l - 1) l g) as H1.
  pose proof (shuffleLoop_map f (length l' - 1) l' g) as H2.
  rewrite <- Hl, <- E, H1 in H2.
  unfold QuizGenerator.shuffle; rewrite <- Hl.
  destruct (shuffleLoop (length l - 1) l g),
           (shuffleLoop (length l - 1) l' g).
  cbn [returned rngAfter fst snd] in *.
  injection H2 as -> ->; auto.
Qed.

Lemma find_unknown_answer (f : QuantifierType -> string) (c : Conclusion) :
  find (fun a => QuantifierType_eqb (atype a) q_unknown)
       (map (fun type =>
               mkTypedAnswer type (f type)
                             (QuantifierType_eqb type (ctype c)))
            allTypes)
  = Some (mkTypedAnswer q_unknown (f q_unknown)
                        (QuantifierType_eqb q_unknown (ctype c))).
Proof. reflexivity. Qed.

(** X20: on the same draws the generator of the component and the one of
    the API route draw the same template and the same conclusion, put the
    correct answer in the same place and leave the draws in the same
    state; one throws when the other does.  They differ in the terms: the
    component reads them from the shuffled vocabulary, the API route from
    the vocabulary as it is listed. *)
Theorem single_answer_generators_differ_in_terms_only :
  forall J lang g,
    match generateQuizFrom QuizGenerator.shuffle J lang g,
          generateQuizFrom ApiQuiz.shuffle J lang g with
    | Some (q1, c1, t1, g1), Some (q2, c2, t2, g2) =>
        c1 = c2 /\ g1 = g2
        /\ map isCorrect (answers q1) = map isCorrect (answers q2)
        /\ t1 = returned (QuizGenerator.shuffle (termsOf J lang)
                                                (advance 1 g))
        /\ t2 = termsOf J lang
    | None, None => True
    | _, _ => False
    end.
Proof.
  intros J lang g; unfold generateQuizFrom.
  pose proof (getRandomElement_rng (quizData J) g) as Hg.
  destruct (getRandomElement (quizData J) g) as [oi g0].
  simpl in Hg; subst g0; cbv zeta.
  destruct (shuffles_agree (termsOf J lang) (advance 1 g))
    as (_ & Hrng & Hpa & Hpq).
  rewrite Hrng, Hpa, Hpq.
  destruct oi as [item|]; [|exact I].
  destruct (getRandomElement (correct item) _) as [[c|] g2]; [|exact I].
  match goal with
  | |- context [ApiQuiz.shuffle ?l2 g2] =>
      match goal with
      | |- context [QuizGenerator.shuffle ?l1 g2] =>
          destruct (shuffles_agree l2 g2) as (Hr2 & Hg2 & _ & _);
          destruct (shuffled_flags aisCorrect l1 l2 g2 eq_refl)
            as (Hflags & Hg1)
      end
  end.
  rewrite Hr2, Hg2, <- Hg1.
  rewrite !find_unknown_answer.
  repeat split; cbn [answers].
  rewrite !map_map, !map_app; cbn [map untyped isCorrect aisCorrect].
  f_equal; exact Hflags.
Qed.

(** ** The request handlers *)

Lemma supported_iff (param : option string) :
  supported (langOrDefault param) = false <-> unsupportedParam param.
Proof.
  unfold unsupportedParam, supported.
  destruct param as [[|c s]|]; cbn [langOrDefault existsb].
  - split; [discriminate | intros (s & [= <-] & H & _); congruence].
  - rewrite !orb_false_iff, !String.eqb_neq; split.
    + intros (H1 & H2 & _); exists (String c s).
      repeat split; auto; discriminate.
    + intros (s' & [= <-] & _ & H1 & H2); auto.
  - split; [discriminate | intros (s & H & _); discriminate].
Qed.

Lemma generateQuizWith_None
      (shuffle : forall A : Type, list A -> Rng -> Shuffled A)
      (J : Imports) (lang : Lang) (g : Rng) :
  generateQuizWith shuffle J lang g = None <-> nothingToAsk J g.
Proof.
  rewrite <- (generateQuizFrom_None shuffle J lang g).
  unfold generateQuizWith.
  destruct (generateQuizFrom shuffle J lang g) as [[[[q c] t] g']|];
    split; congruence.
Qed.

(** X21: [GET] of quiz.ts answers 400 exactly for a language code that is
    given, not empty and neither "de" nor "en"; 500 exactly when the code
    is accepted and the generator throws (empty library, or a template
    without conclusion is drawn); 200 otherwise, with the quiz of the
    generator and the headers that forbid caching.  A missing and an empty
    code are read as "en". *)
Theorem quiz_route_statuses :
  forall J param g,
    (status (ApiQuizRoute.GET J param g) = 400 <-> unsupportedParam param)
    /\ (status (ApiQuizRoute.GET J param g) = 500
        <-> ~ unsupportedParam param /\ nothingToAsk J g)
    /\ (status (ApiQuizRoute.GET J param g) = 200
        <-> exists quiz,
          ApiQuiz.generateQuiz J (langOfCode (langOrDefault param)) g
          = Some quiz
          /\ ~ unsupportedParam param
          /\ ApiQuizRoute.GET J param g
             = mkResponse 200 noCacheHeaders (QuizBody quiz))
    /\ ApiQuizRoute.GET J None g = ApiQuizRoute.GET J (Some "en") g
    /\ ApiQuizRoute.GET J (Some "") g = ApiQuizRoute.GET J (Some "en") g.
Proof.
  intros J param g; unfold ApiQuizRoute.GET; cbv zeta.
  rewrite <- supported_iff.
  pose proof (generateQuizWith_None ApiQuiz.shuffle J
                (langOfCode (langOrDefault param)) g) as Hnone.
  fold ApiQuiz.generateQuiz in Hnone.
  destruct (supported (langOrDefault param)) eqn:Hs; cbn [negb].
  - destruct (ApiQuiz.generateQuiz J (langOfCode (langOrDefault param)) g)
      as [quiz|] eqn:E; cbn [status].
    + repeat split; try discriminate; auto.
      * intros [_ H]; apply Hnone in H; discriminate.
      * intros _; exists quiz; repeat split; auto.
        intros H; apply supported_iff in H; congruence.
    + repeat split; try discriminate; auto.
      * apply Hnone; reflexivity.
      * intros (quiz & H & _); discriminate.
  - cbn [status]; repeat split; try discriminate; auto.
    + intros [H _]; exfalso; apply H; reflexivity.
    + intros (quiz & _ & H & _); exfalso; apply H.
      apply supported_iff; exact Hs.
Qed.

(** X22: [GET] of multi-quiz.ts answers 400 for an unsupported language
    code before the generator is entered; for an accepted code it answers
    500 exactly when the library is empty, 200 with the quiz when the
    generator returns, and does not answer while the rejection loop goes
    on. *)
Theorem multi_quiz_route_statuses :
  forall J fuel param g,
    (unsupportedParam param ->
     MultiQuizRoute.GET J fuel param g
     = Some (mkResponse 400 jsonHeaders
               (ErrorBody MultiQuiz.MultiQuiz
                          "Invalid language. Supported: de, en")))
    /\ (~ unsupportedParam param ->
        match MultiQuizRoute.GET J fuel param g with
        | None =>
            MultiQuiz.generateMultiQuiz
              J fuel (langOfCode (langOrDefault param)) g
            = MultiQuiz.Running
        | Some r =>
            (status r = 500 <-> quizData J = [] /\ 0 < fuel)
            /\ (status r = 200
                <-> exists quiz g',
                  MultiQuiz.generateMultiQuiz
                    J fuel (langOfCode (langOrDefault param)) g
                  = MultiQuiz.Returned quiz g'
                  /\ r = mkResponse 200 noCacheHeaders (QuizBody quiz))
            /\ (status r = 200 \/ status r = 500)
        end)
    /\ MultiQuizRoute.GET J fuel None g
       = MultiQuizRoute.GET J fuel (Some "en") g
    /\ MultiQuizRoute.GET J fuel (Some "") g
       = MultiQuizRoute.GET J fuel (Some "en") g.
Proof.
  intros J fuel param g; unfold MultiQuizRoute.GET; cbv zeta.
  rewrite <- supported_iff.
  pose proof (generateMultiQuiz_outcome J fuel
                (langOfCode (langOrDefault param)) g) as Ho.
  pose proof (drawItem_spec J fuel
                (loopEntry J (langOfCode (langOrDefault param)) g)) as Hs.
  destruct (supported (langOrDefault param)) eqn:Hsup; cbn [negb].
  - split; [discriminate|]; split; [|split; reflexivity]; intros _.
    destruct (MultiQuiz.generateMultiQuiz
                J fuel (langOfCode (langOrDefault param)) g)
      as [quiz g'| |] eqn:E; [| |reflexivity]; cbn [status].
    + split; [|split; [|left; reflexivity]].
      * split; [discriminate|]; intros [Hd Hf].
        destruct fuel as [|fuel]; [lia|].
        rewrite (drawItem_empty J fuel _ Hd) in Ho; congruence.
      * split; [intros _; exists quiz, g'; auto | reflexivity].
    + split; [|split; [|right; reflexivity]].
      * split; [intros _ | reflexivity].
        destruct (quizData J) as [|x l] eqn:Hd.
        -- split; [reflexivity|]; destruct fuel; [|lia].
           cbn [MultiQuiz.drawItem] in Ho; congruence.
        -- exfalso; specialize (Hs ltac:(discriminate)).
           destruct (MultiQuiz.drawItem J fuel _);
             [destruct Ho as (q & r & g' & _ & Ho) | contradiction |];
             congruence.
      * split; [discriminate | intros (quiz & g' & H & _); discriminate].
  - split; [reflexivity|]; split; [|split; reflexivity].
    intros H; exfalso; apply H; reflexivity.
Qed.

Lemma multi_quiz_route_statuses_witness :
  MultiQuizRoute.GET Sample.imports 5 (Some "fr") counting
  = Some (mkResponse 400 jsonHeaders
            (ErrorBody MultiQuiz.MultiQuiz
                       "Invalid language. Supported: de, en")).
Proof.
  apply (proj1 (multi_quiz_route_statuses Sample.imports 5 (Some "fr")
                                          counting)).
  exists "fr"; repeat split; discriminate.
Defined.

(** ** The translation helpers *)

Lemma splitOn_cons (sep : ascii) (s : string) :
  exists h t, splitOn sep s = h :: t.
Proof.
  destruct s as [|c s]; simpl; [eauto|].
  destruct (Ascii.eqb c sep); [eauto|].
  destruct (splitOn sep s); eauto.
Qed.

Lemma splitOn_plain (sep : ascii) (a : string) :
  hasChar sep a = false -> splitOn sep a = [a].
Proof.
  induction a as [|c a IH]; simpl; [reflexivity|].
  intros H; apply orb_false_iff in H; destruct H as [Hc Ha].
  rewrite Hc, (IH Ha); reflexivity.
Qed.

Lemma splitOn_app (sep : ascii) (a b : string) :
  hasChar sep a = false ->
  splitOn sep (a ++ String sep b) = a :: splitOn sep b.
Proof.
  induction a as [|c a IH]; simpl.
  - intros _; rewrite Ascii.eqb_refl; reflexivity.
  - intros H; apply orb_false_iff in H; destruct H as [Hc Ha].
    rewrite Hc, (IH Ha); reflexivity.
Qed.

Lemma concat_two (sep x h : string) (t : list string) :
  String.concat sep (x :: h :: t)
  = (x ++ sep ++ String.concat sep (h :: t))%string.
Proof. reflexivity. Qed.

(** X23: [split] on a one-character separator gives at least one part, no
    part has the separator, and joining the parts with the separator
    gives the string back; a string without the separator is its own one
    part. *)
Theorem split_and_join :
  forall sep s,
    splitOn sep s <> []
    /\ Forall (fun part => hasChar sep part = false) (splitOn sep s)
    /\ String.concat (String sep "") (splitOn sep s) = s
    /\ (hasChar sep s = false -> splitOn sep s = [s])
    /\ length (splitOn sep s)
       = S (length (filter (fun c => Ascii.eqb c sep)
                           (list_ascii_of_string s))).
Proof.
  intros sep s; split; [|split; [|split; [|split]]].
  - destruct (splitOn_cons sep s) as (h & t & ->); discriminate.
  - induction s as [|c s IH]; simpl; [repeat constructor|].
    destruct (Ascii.eqb c sep) eqn:E; [constructor; auto|].
    destruct (splitOn sep s) as [|h t]; [repeat constructor; simpl|].
    + rewrite E; reflexivity.
    + inversion IH; subst; constructor; auto; simpl.
      rewrite E; assumption.
  - induction s as [|c s IH]; simpl; [reflexivity|].
    destruct (Ascii.eqb_spec c sep) as [->|Hne].
    + destruct (splitOn_cons sep s) as (h & t & E).
      rewrite E in *; rewrite concat_two, IH; reflexivity.
    + destruct (splitOn_cons sep s) as (h & t & E).
      rewrite E in *; destruct t as [|h' t].
      * simpl in *; rewrite IH; reflexivity.
      * rewrite <- IH, !concat_two; reflexivity.
  - apply splitOn_plain.
  - induction s as [|c s IH]; simpl; [reflexivity|].
    destruct (Ascii.eqb c sep); simpl; [rewrite IH; reflexivity|].
    destruct (splitOn_cons sep s) as (h & t & E).
    rewrite E in *; exact IH.
Qed.

Section I18nFacts.
Variable objectInherits : string -> bool.
Variable arrayInherits : string -> bool.
Variable ui : Lang -> Value.

Let walkIn := I18n.walkDefault objectInherits arrayInherits.
Let translate := I18n.useTranslations objectInherits arrayInherits ui.

Lemma walk_falls_back (parts : list string) :
  forall rest value,
    I18n.walk objectInherits arrayInherits ui parts rest value
    = match walkIn rest value with
      | I18n.ReturnKey => walkIn parts (ui I18n.defaultLang)
      | w => w
      end.
Proof.
  induction rest as [|part rest IH]; intros value; [reflexivity|].
  unfold walkIn in *; cbn [I18n.walk I18n.walkDefault].
  destruct (I18n.lookup objectInherits arrayInherits value part);
    auto.
Qed.

(** X24: [useTranslations(lang)(key)] has a result for every key.  It walks
    the file of the language along the parts of the key, through the
    properties a value has and those it inherits.  When the walk arrives,
    the string it arrives at is returned, and the key when it arrives at
    something else: the default language is not asked.  When a part is
    missing, the result is the one of the default language, which is the
    key when a part is missing there too.  So a key that is a name objects
    inherit, and no entry of the file, is returned as it is. *)
Theorem translation_falls_back_on_missing_parts :
  forall lang key,
    (exists text, translate lang key = Some text)
    /\ match walkIn (splitOn "." key) (ui lang) with
       | I18n.Reached v => translate lang key = Some (textOr key v)
       | I18n.ReturnKey =>
           translate lang key = translate I18n.defaultLang key
           /\ match walkIn (splitOn "." key) (ui I18n.defaultLang) with
              | I18n.Reached v => translate lang key = Some (textOr key v)
              | I18n.ReturnKey => translate lang key = Some key
              end
       end
    /\ (forall props,
           ui lang = VObject props ->
           assoc key props = None ->
           hasChar "." key = false ->
           objectInherits key = true ->
           translate lang key = Some key).
Proof.
  intros lang key.
  assert (match walkIn (splitOn "." key) (ui lang) with
          | I18n.Reached v => translate lang key = Some (textOr key v)
          | I18n.ReturnKey =>
              translate lang key = translate I18n.defaultLang key
              /\ match walkIn (splitOn "." key) (ui I18n.defaultLang) with
                 | I18n.Reached v => translate lang key = Some (textOr key v)
                 | I18n.ReturnKey => translate lang key = Some key
                 end
          end) as Hwalk.
  { unfold translate, I18n.useTranslations; cbv zeta.
    rewrite !walk_falls_back.
    destruct (walkIn (splitOn "." key) (ui lang)) as [v|] eqn:E.
    - destruct v; reflexivity.
    - destruct (walkIn (splitOn "." key) (ui I18n.defaultLang)) as [v|];
        split; try reflexivity; destruct v; reflexivity. }
  split; [|split; [exact Hwalk|]].
  - destruct (walkIn (splitOn "." key) (ui lang)) as [v|].
    + eexists; exact Hwalk.
    + destruct Hwalk as [_ Hwalk].
      destruct (walkIn (splitOn "." key) (ui I18n.defaultLang)) as [v|];
        eexists; exact Hwalk.
  - intros props Eui Eown Hdot Hin; clear Hwalk.
    unfold translate, I18n.useTranslations; cbv zeta.
    rewrite (splitOn_plain _ _ Hdot).
    cbn [I18n.walk]; rewrite Eui; cbn [I18n.lookup].
    rewrite Eown, Hin; unfold I18n.inheritedValue.
    destruct (String.eqb key "__proto__"); reflexivity.
Qed.

(** X25: when no part of the key is a name that objects or arrays inherit,
    [useTranslations] returns a string: a string of the file of the
    language, a string of the file of the default language, or the key. *)
Theorem translation_returns_a_string :
  forall lang key,
    (forall part, In part (splitOn "." key) ->
                  objectInherits part = false
                  /\ arrayInherits part = false) ->
    exists text,
      translate lang key = Some text
      /\ (text = key
          \/ walkIn (splitOn "." key) (ui lang)
             = I18n.Reached (VString text)
          \/ (walkIn (splitOn "." key) (ui lang) = I18n.ReturnKey
              /\ walkIn (splitOn "." key) (ui I18n.defaultLang)
                 = I18n.Reached (VString text))).
Proof.
  intros lang key _.
  unfold translate, I18n.useTranslations; cbv zeta.
  rewrite walk_falls_back.
  destruct (walkIn (splitOn "." key) (ui lang)) as [v|].
  - destruct v; eexists; split; try reflexivity; auto.
  - destruct (walkIn (splitOn "." key) (ui I18n.defaultLang)) as [v|].
    + destruct v; eexists; split; try reflexivity; auto.
    + eexists; split; [reflexivity | auto].
Qed.

(** X26: [getLangFromUrl] returns the first segment of the path when it is
    "en" or "de", and also when it is a name that objects inherit, which
    is no language; for any other segment it returns "en".  What follows
    the segment does not matter. *)
Theorem language_of_path :
  forall seg rest,
    hasChar "/" seg = false ->
    I18n.getLangFromUrl objectInherits ("/" ++ seg)
    = Some (if String.eqb seg "en" || String.eqb seg "de"
               || objectInherits seg
            then seg else "en")
    /\ I18n.getLangFromUrl objectInherits ("/" ++ seg ++ "/" ++ rest)
       = I18n.getLangFromUrl objectInherits ("/" ++ seg)
    /\ (objectInherits seg = false ->
        I18n.getLangFromUrl objectInherits ("/" ++ seg) = Some "en"
        \/ I18n.getLangFromUrl objectInherits ("/" ++ seg) = Some "de").
Proof.
  intros seg rest Hseg.
  assert (forall tail,
             nth_error (splitOn "/" ("/" ++ seg ++ tail)) 1
             = nth_error (splitOn "/" (seg ++ tail)) 0) as Hhead
      by (intros tail; reflexivity).
  assert (I18n.getLangFromUrl objectInherits ("/" ++ seg)
          = Some (if String.eqb seg "en" || String.eqb seg "de"
                     || objectInherits seg
                  then seg else "en")) as E1.
  { unfold I18n.getLangFromUrl.
    change (nth_error (splitOn "/" ("/" ++ seg)) 1)
      with (nth_error (splitOn "/" seg) 0).
    rewrite (splitOn_plain _ _ Hseg); cbn [nth_error existsb].
    rewrite orb_false_r, <- orb_assoc.
    destruct (_ || _); reflexivity. }
  split; [exact E1|]; split.
  - rewrite E1; clear E1; unfold I18n.getLangFromUrl.
    change (nth_error (splitOn "/" ("/" ++ seg ++ "/" ++ rest)) 1)
      with (nth_error (splitOn "/" (seg ++ String "/" rest)) 0).
    rewrite (splitOn_app _ _ _ Hseg); cbn [nth_error existsb].
    rewrite orb_false_r, <- orb_assoc.
    destruct (_ || _); reflexivity.
  - intros Hin; rewrite E1, Hin, orb_false_r.
    destruct (String.eqb_spec seg "en") as [->|_]; [left; reflexivity|].
    destruct (String.eqb_spec seg "de") as [->|_]; simpl; auto.
Qed.
End I18nFacts.

Lemma translation_returns_a_string_witness :
  exists text,
    I18n.useTranslations sampleInherits sampleInherits sampleUi de
                         "quiz.check"
    = Some text
    /\ (text = "quiz.check"
        \/ I18n.walkDefault sampleInherits sampleInherits
                            (splitOn "." "quiz.check") (sampleUi de)
           = I18n.Reached (VString text)
        \/ (I18n.walkDefault sampleInherits sampleInherits
                             (splitOn "." "quiz.check") (sampleUi de)
            = I18n.ReturnKey
            /\ I18n.walkDefault sampleInherits sampleInherits
                                (splitOn "." "quiz.check")
                                (sampleUi I18n.defaultLang)
               = I18n.Reached (VString text))).
Proof.
  apply (translation_returns_a_string sampleInherits sampleInherits sampleUi
                                      de "quiz.check").
  intros part H; simpl in H.
  repeat (destruct H as [<-|H]; [split; reflexivity|]); contradiction.
Defined.

Lemma language_of_path_witness :
  I18n.getLangFromUrl sampleInherits ("/" ++ "de")
  = Some (if String.eqb "de" "en" || String.eqb "de" "de"
             || sampleInherits "de"
          then "de" else "en")
  /\ I18n.getLangFromUrl sampleInherits ("/" ++ "de" ++ "/" ++ "quiz")
     = I18n.getLangFromUrl sampleInherits ("/" ++ "de")
  /\ (sampleInherits "de" = false ->
      I18n.getLangFromUrl sampleInherits ("/" ++ "de") = Some "en"
      \/ I18n.getLangFromUrl sampleInherits ("/" ++ "de") = Some "de").
Proof.
  apply (language_of_path sampleInherits "de" "quiz"); reflexivity.
Defined.

(** On the sample files: a string of the language, the fallback to the
    default language, a section (no fallback), an entry of an array, a key
    that is nowhere, keys on inherited names, and a path segment that is an
    inherited name. *)
Example translations_on_sample :
  let t := I18n.useTranslations sampleInherits sampleInherits sampleUi in
  t de "quiz.next" = Some "Weiter"
  /\ t de "quiz.check" = Some "Check"
  /\ t de "quiz" = Some "quiz"
  /\ t de "terms.1" = Some "dogs"
  /\ t de "quiz.skip" = Some "quiz.skip"
  /\ t de "title.length" = Some "title.length"
  /\ t de "toString" = Some "toString"
  /\ t de "quiz.constructor" = Some "quiz.constructor"
  /\ t de "terms.__proto__.__proto__.__proto__.x"
     = Some "terms.__proto__.__proto__.__proto__.x"
  /\ I18n.getLangFromUrl sampleInherits "/constructor/x" = Some "constructor"
  /\ I18n.getLangFromUrl sampleInherits "/fr/quiz" = Some "en".
Proof. repeat split; reflexivity. Qed.

(** ** A vocabulary that is too short *)

Lemma termMapOf_short (terms : list string) :
  length terms <= 2 -> termMapOf terms Z = "undefined".
Proof.
  destruct terms as [|a [|b [|c terms]]]; simpl; intros H;
    try reflexivity; lia.
Qed.

(** X27: a vocabulary of fewer than three terms is no error for the
    single-answer generators.  With a template to draw and a conclusion to
    draw from it, each of them returns a quiz; the variable Z has no term
    and reads "undefined" (Y too when there are fewer than two terms, X
    when there is none), and the premises and the five answers of the quiz
    are the patterns filled with these readings: each answer is the pattern
    of a kind on the readings of the subject and object of the conclusion
    drawn. *)
Theorem short_vocabulary_reads_undefined :
  forall J lang g,
    quizData J <> [] ->
    (forall item, In item (quizData J) -> correct item <> []) ->
    length (termsOf J lang) <= 2 ->
    exists item c,
      fst (getRandomElement (quizData J) g) = Some item
      /\ drawnConclusion J lang g = Some c
      /\ forall generateQuiz terms,
          (generateQuiz = QuizGenerator.generateQuiz
           /\ terms = returned (QuizGenerator.shuffle (termsOf J lang)
                                                      (advance 1 g)))
          \/ (generateQuiz = ApiQuiz.generateQuiz
              /\ terms = termsOf J lang) ->
          exists quiz,
            generateQuiz J lang g = Some quiz
            /\ termMapOf terms Z = "undefined"
            /\ (length (termsOf J lang) <= 1 ->
                termMapOf terms Y = "undefined")
            /\ (termsOf J lang = [] -> termMapOf terms X = "undefined")
            /\ baseSentences quiz
               = map (fun s =>
                        fill (templatesOf J lang (widen (stype s)))
                             (termMapOf terms (ssubject s))
                             (termMapOf terms (sobject s)))
                     (statements item)
            /\ length (answers quiz) = 5
            /\ (forall a,
                   In a (answers quiz) ->
                   exists type,
                     sentence a
                     = fill (templatesOf J lang type)
                            (termMapOf terms (csubject c))
                            (termMapOf terms (cobject c))).
Proof.
  intros J lang g Hd Hc Hlen.
  destruct shuffles_read_their_draws as (HrQ & HrA & _).
  destruct (generateQuizFrom_total QuizGenerator.shuffle J lang g Hd Hc)
    as (quizQ & cQ & termsQ & gQ & EQ).
  destruct (generateQuizFrom_total ApiQuiz.shuffle J lang g Hd Hc)
    as (quizA & cA & termsA & gA & EA).
  destruct (generateQuizFrom_draws _ _ _ _ _ _ _ _ HrQ EQ)
    as (item & Hitem & _ & Hdrawn & _ & HtQ).
  destruct (generateQuizFrom_draws _ _ _ _ _ _ _ _ HrA EA)
    as (item' & Hitem' & _ & Hdrawn' & _ & HtA).
  assert (cA = cQ) as -> by congruence.
  assert (item' = item) as -> by congruence.
  rewrite ApiQuiz_shuffle_passed in HtA.
  replace (passed (QuizGenerator.shuffle (termsOf J lang) (advance 1 g)))
    with (returned (QuizGenerator.shuffle (termsOf J lang) (advance 1 g)))
    in HtQ
    by (unfold QuizGenerator.shuffle; destruct (shuffleLoop _ _ _);
        reflexivity).
  exists item, cQ; split; [exact Hitem|]; split; [exact Hdrawn|].
  assert (forall shuffle quiz terms g',
             rearranges shuffle ->
             generateQuizFrom shuffle J lang g = Some (quiz, cQ, terms, g') ->
             fst (getRandomElement (quizData J) g) = Some item ->
             Permutation terms (termsOf J lang) ->
             generateQuizWith shuffle J lang g = Some quiz
             /\ termMapOf terms Z = "undefined"
             /\ (length (termsOf J lang) <= 1 ->
                 termMapOf terms Y = "undefined")
             /\ (termsOf J lang = [] -> termMapOf terms X = "undefined")
             /\ baseSentences quiz
                = map (fun s =>
                         fill (templatesOf J lang (widen (stype s)))
                              (termMapOf terms (ssubject s))
                              (termMapOf terms (sobject s)))
                      (statements item)
             /\ length (answers quiz) = 5
             /\ (forall a,
                    In a (answers quiz) ->
                    exists type,
                      sentence a
                      = fill (templatesOf J lang type)
                             (termMapOf terms (csubject cQ))
                             (termMapOf terms (cobject cQ)))) as Hboth.
  { intros shuffle quiz terms g' Hre E Hit Hp.
    pose proof (Permutation_length Hp) as Hl.
    split; [unfold generateQuizWith; rewrite E; reflexivity|].
    split; [apply termMapOf_short; lia|].
    split; [intros H1; destruct terms as [|a [|b terms]]; simpl in *;
            try reflexivity; lia|].
    split; [intros E0; rewrite E0 in Hl;
            destruct terms; [reflexivity | discriminate]|].
    assert (baseSentences quiz
            = map (fun s =>
                     fill (templatesOf J lang (widen (stype s)))
                          (termMapOf terms (ssubject s))
                          (termMapOf terms (sobject s)))
                  (statements item)) as Hbase.
    { clear - E Hit; unfold generateQuizFrom in E.
      destruct (getRandomElement (quizData J) g) as [oi g1].
      cbn [fst] in Hit; subst oi; cbv zeta in E.
      destruct (getRandomElement (correct item) _) as [[c0|] g2];
        [|discriminate].
      injection E as <- _ <- _; reflexivity. }
    destruct (generateQuizFrom_inv _ Hre _ _ _ _ _ _ _ E)
      as (it & others & _ & _ & _ & Hperm & Ha & _).
    split; [exact Hbase|].
    pose proof (Permutation_length Hperm) as Hlo; simpl in Hlo.
    split; [rewrite Ha, length_app; simpl; lia|].
    intros a Hin; rewrite Ha in Hin; apply in_app_iff in Hin.
    destruct Hin as [Hin|[<-|[]]].
    - apply (Permutation_in _ Hperm) in Hin.
      unfold shuffledFour in Hin; apply in_map_iff in Hin.
      destruct Hin as (type & <- & _); exists type; reflexivity.
    - exists q_unknown; reflexivity. }
  intros generateQuiz terms [[-> ->]|[-> ->]].
  - exists quizQ.
    apply (Hboth QuizGenerator.shuffle quizQ _ gQ
                 QuizGenerator_shuffle_rearranges);
      [rewrite <- HtQ; exact EQ | exact Hitem |].
    apply QuizGenerator_shuffle_rearranges.
  - exists quizA.
    apply (Hboth ApiQuiz.shuffle quizA _ gA ApiQuiz_shuffle_rearranges);
      [rewrite <- HtA; exact EA | exact Hitem | reflexivity].
Qed.

Lemma short_vocabulary_reads_undefined_witness :
  exists item c,
    fst (getRandomElement (quizData twoTerms) counting) = Some item
    /\ drawnConclusion twoTerms en counting = Some c
    /\ forall generateQuiz terms,
        (generateQuiz = QuizGenerator.generateQuiz
         /\ terms = returned (QuizGenerator.shuffle (termsOf twoTerms en)
                                                    (advance 1 counting)))
        \/ (generateQuiz = ApiQuiz.generateQuiz
            /\ terms = termsOf twoTerms en) ->
        exists quiz,
          generateQuiz twoTerms en counting = Some quiz
          /\ termMapOf terms Z = "undefined"
          /\ (length (termsOf twoTerms en) <= 1 ->
              termMapOf terms Y = "undefined")
          /\ (termsOf twoTerms en = [] -> termMapOf terms X = "undefined")
          /\ baseSentences quiz
             = map (fun s =>
                      fill (templatesOf twoTerms en (widen (stype s)))
                           (termMapOf terms (ssubject s))
                           (termMapOf terms (sobject s)))
                   (statements item)
          /\ length (answers quiz) = 5
          /\ (forall a,
                 In a (answers quiz) ->
                 exists type,
                   sentence a
                   = fill (templatesOf twoTerms en type)
                          (termMapOf terms (csubject c))
                          (termMapOf terms (cobject c))).
Proof.
  apply (short_vocabulary_reads_undefined twoTerms en counting).
  - discriminate.
  - intros item [<-|[]]; discriminate.
  - simpl; lia.
Defined.

(** With two terms the conclusion of Barbara, on X and Z, reads
    "undefined" for Z. *)
Example barbara_with_two_terms :
  ApiQuiz.generateQuiz twoTerms en counting
  = Some (mkQuiz
            ["All cats are dogs."; "All dogs are undefined."]
            [mkAnswer "All cats are undefined." true;
             mkAnswer "Some cats are undefined." false;
             mkAnswer "No cats are undefined." false;
             mkAnswer "Some cats are not undefined." false;
             mkAnswer "Nothing follows about cats and undefined." false]).
Proof. reflexivity. Qed.
